(** * Phishing e-mail analyser (app.py): model and verified properties

    A shallow embedding of [preprocess_text] and [analyze_email] of
    [src/app.py], followed by the properties stated about them.

    Python values are represented as follows.
    - A [str] is the list of its Unicode code points ([N]).  String
      literals of the source are written as UTF-8 text and decoded by
      [utf8].
    - [str.lower] follows CPython's algorithm; the Unicode character
      database it consults for non-ASCII code points is a parameter
      ([UnicodeData]); ASCII is computed.
    - The regular expressions of the source are terms of a small syntax,
      run by a backtracking matcher with the priorities of [re]
      (leftmost start, greedy and lazy repetition, ordered alternation).
    - Probabilities are binary64 floats ([PrimFloat]).
    - Exceptions are values of an error monad ([py]). *)

From Stdlib Require Import Ascii String List NArith ZArith Bool Lia.
From Stdlib Require Import PrimFloat SpecFloat FloatAxioms.
From Stdlib Require DecimalString.
Import ListNotations.

Set Warnings "-inexact-float,-register-all".
Local Open Scope N_scope.

(* ================================================================= *)
(** ** Strings *)

Definition char := N.
Definition str := list char.

Definition bytes_of (s : string) : list N :=
  map N_of_ascii (list_ascii_of_string s).

(** UTF-8 decoding of the bytes of a source literal. *)
Fixpoint utf8_decode (bs : list N) : str :=
  match bs with
  | [] => []
  | b0 :: t0 =>
    if b0 <? 128 then b0 :: utf8_decode t0
    else if b0 <? 224 then
      match t0 with
      | b1 :: t1 =>
        N.lor (N.shiftl (N.land b0 31) 6) (N.land b1 63) :: utf8_decode t1
      | _ => []
      end
    else if b0 <? 240 then
      match t0 with
      | b1 :: b2 :: t2 =>
        N.lor (N.shiftl (N.land b0 15) 12)
          (N.lor (N.shiftl (N.land b1 63) 6) (N.land b2 63)) :: utf8_decode t2
      | _ => []
      end
    else
      match t0 with
      | b1 :: b2 :: b3 :: t3 =>
        N.lor (N.shiftl (N.land b0 7) 18)
          (N.lor (N.shiftl (N.land b1 63) 12)
             (N.lor (N.shiftl (N.land b2 63) 6) (N.land b3 63))) :: utf8_decode t3
      | _ => []
      end
  end.

Definition utf8 (s : string) : str := utf8_decode (bytes_of s).
Arguments utf8 : simpl never.

Definition char_eqb (a b : char) : bool := a =? b.

Fixpoint str_eqb (a b : str) : bool :=
  match a, b with
  | [], [] => true
  | x :: a', y :: b' => char_eqb x y && str_eqb a' b'
  | _, _ => false
  end.

(** [k in s] on strings: [k] occurs as a contiguous substring of [s]. *)
Fixpoint prefixb (k s : str) : bool :=
  match k, s with
  | [], _ => true
  | x :: k', y :: s' => char_eqb x y && prefixb k' s'
  | _ :: _, [] => false
  end.

Fixpoint str_in (k s : str) : bool :=
  prefixb k s ||
  match s with
  | [] => false
  | _ :: t => str_in k t
  end.

(** [Py_UNICODE_ISSPACE]: the white space of [str.split], [str.isspace]
    and of [\s] in a [str] pattern. *)
Definition is_space (c : char) : bool :=
  ((9 <=? c) && (c <=? 13)) || ((28 <=? c) && (c <=? 32))
  || (c =? 133) || (c =? 160) || (c =? 5760)
  || ((8192 <=? c) && (c <=? 8202))
  || (c =? 8232) || (c =? 8233) || (c =? 8239) || (c =? 8287) || (c =? 12288).

Definition is_ascii_upper (c : char) : bool := (65 <=? c) && (c <=? 90).
Definition is_ascii_lower (c : char) : bool := (97 <=? c) && (c <=? 122).

(** [text.split()]: the maximal runs of non-space characters, in order.
    [w] is the word read so far. *)
Fixpoint split_from (w : str) (s : str) : list str :=
  match s with
  | [] => match w with [] => [] | _ => [w] end
  | c :: t =>
    if is_space c then
      match w with
      | [] => split_from [] t
      | _ => w :: split_from [] t
      end
    else split_from (w ++ [c]) t
  end.

Definition split (s : str) : list str := split_from [] s.

(** [sep.join(ws)]. *)
Fixpoint join (sep : str) (ws : list str) : str :=
  match ws with
  | [] => []
  | [w] => w
  | w :: rest => w ++ sep ++ join sep rest
  end.

(* ================================================================= *)
(** ** [str.lower] *)

(** What [str.lower] reads from the Unicode character database: the
    full lower-case mapping of a code point ([_PyUnicode_ToLowerFull],
    consulted here for non-ASCII code points only) and the two
    properties the final-sigma rule tests. *)
Record UnicodeData := {
  to_lower_full : char -> str;
  is_cased : char -> bool;
  is_case_ignorable : char -> bool
}.

(** A database that knows ASCII only: every other code point is its own
    lower case.  Used to run the model on concrete inputs. *)
Definition ascii_only : UnicodeData := {|
  to_lower_full := fun c => [c];
  is_cased := fun c => is_ascii_upper c || is_ascii_lower c;
  is_case_ignorable := fun _ => false
|}.

Definition capital_sigma : char := 931.
Definition small_sigma : char := 963.
Definition small_final_sigma : char := 962.

Definition ascii_lower (c : char) : char :=
  if is_ascii_upper c then c + 32 else c.

Section Lower.
Variable U : UnicodeData.

Definition lower_char (c : char) : str :=
  if c <? 128 then [ascii_lower c] else to_lower_full U c.

(** First character that is not case-ignorable. *)
Fixpoint skip_ignorable (s : str) : option char :=
  match s with
  | [] => None
  | c :: t => if is_case_ignorable U c then skip_ignorable t else Some c
  end.

(** [handle_capital_sigma]: [before] holds the characters to the left,
    nearest first; [after] those to the right. *)
Definition handle_capital_sigma (before after : str) : char :=
  match skip_ignorable before with
  | Some c =>
    if is_cased U c then
      match skip_ignorable after with
      | None => small_final_sigma
      | Some d => if is_cased U d then small_sigma else small_final_sigma
      end
    else small_sigma
  | None => small_sigma
  end.

Definition lower_ucs4 (before : str) (c : char) (after : str) : str :=
  if c =? capital_sigma then [handle_capital_sigma before after]
  else lower_char c.

Fixpoint do_lower (before : str) (s : str) : str :=
  match s with
  | [] => []
  | c :: after => lower_ucs4 before c after ++ do_lower (c :: before) after
  end.

Definition lower (s : str) : str := do_lower [] s.
End Lower.

(* ================================================================= *)
(** ** Regular expressions *)

(** The pattern forms the program uses.  Repetition is over a single
    character class, as in [\S+], [\s+] and [.*?]. *)
Inductive regex :=
| Eps
| Lit (c : char)
| Class (p : char -> bool)
| Seq (r1 r2 : regex)
| Alt (r1 r2 : regex)
| Opt (r : regex)
| Plus (p : char -> bool)
| StarLazy (p : char -> bool).

Section Matcher.
Context {A : Type}.

(** [p+], greedy: take as many as possible, give back one at a time. *)
Fixpoint plus_greedy (p : char -> bool) (s : str) (k : str -> option A)
  : option A :=
  match s with
  | [] => None
  | c :: t =>
    if p c then
      match plus_greedy p t k with
      | Some x => Some x
      | None => k t
      end
    else None
  end.

(** [p*?], lazy: take as few as possible. *)
Fixpoint star_lazy (p : char -> bool) (s : str) (k : str -> option A)
  : option A :=
  match k s with
  | Some x => Some x
  | None =>
    match s with
    | [] => None
    | c :: t => if p c then star_lazy p t k else None
    end
  end.

(** [rmatch r s k]: match [r] at the start of [s] and hand the rest to
    [k]; when [k] refuses, backtrack into [r]. *)
Fixpoint rmatch (r : regex) (s : str) (k : str -> option A) : option A :=
  match r with
  | Eps => k s
  | Lit c =>
    match s with
    | x :: t => if char_eqb x c then k t else None
    | [] => None
    end
  | Class p =>
    match s with
    | x :: t => if p x then k t else None
    | [] => None
    end
  | Seq r1 r2 => rmatch r1 s (fun s' => rmatch r2 s' k)
  | Alt r1 r2 =>
    match rmatch r1 s k with
    | Some x => Some x
    | None => rmatch r2 s k
    end
  | Opt r1 =>
    match rmatch r1 s k with
    | Some x => Some x
    | None => k s
    end
  | Plus p => plus_greedy p s k
  | StarLazy p => star_lazy p s k
  end.
End Matcher.

(** A match of [r] starting at the first character of [s]: the text
    left after it. *)
Definition match_at (r : regex) (s : str) : option str :=
  rmatch r s (fun rest => Some rest).

(** [re.search(r, s)] as a truth value. *)
Fixpoint re_search (r : regex) (s : str) : bool :=
  match match_at r s with
  | Some _ => true
  | None =>
    match s with
    | [] => false
    | _ :: t => re_search r t
    end
  end.

(** Number of characters of the first non-empty match of [r] at the
    start of [s].  [re.sub] replaces an empty match and then looks for a
    non-empty one at the same place, so with the replacement [''] only
    the non-empty matches show. *)
Definition match_len (r : regex) (s : str) : option nat :=
  rmatch r s (fun rest =>
    if Nat.ltb (length rest) (length s)
    then Some (length s - length rest)%nat else None).

(** [re.sub(r, '', s)]: scan from the left; [skip] counts the characters
    of the current match still to be dropped. *)
Fixpoint sub_from (r : regex) (skip : nat) (s : str) : str :=
  match s with
  | [] => []
  | c :: t =>
    match skip with
    | S n => sub_from r n t
    | O =>
      match match_len r s with
      | Some (S n) => sub_from r n t
      | _ => c :: sub_from r 0 t
      end
    end
  end.

Definition re_sub_empty (r : regex) (s : str) : str := sub_from r 0 s.

(** Literal text as a pattern. *)
Fixpoint lit (s : str) : regex :=
  match s with
  | [] => Eps
  | c :: t => Seq (Lit c) (lit t)
  end.

Definition non_space (c : char) : bool := negb (is_space c).
(** [.] without DOTALL: anything but a line feed. *)
Definition dot (c : char) : bool := negb (c =? 10).
(** [[^a-zA-Z\s]] *)
Definition not_letter_or_space (c : char) : bool :=
  negb (is_ascii_lower c || is_ascii_upper c || is_space c).

(** [http\S+|www\S+|https\S+] *)
Definition re_url : regex :=
  Alt (Seq (lit (utf8 "http")) (Plus non_space))
    (Alt (Seq (lit (utf8 "www")) (Plus non_space))
         (Seq (lit (utf8 "https")) (Plus non_space))).
(** [\S+@\S+] *)
Definition re_email : regex :=
  Seq (Plus non_space) (Seq (Lit 64) (Plus non_space)).
(** [<.*?>] *)
Definition re_tag : regex :=
  Seq (Lit 60) (Seq (StarLazy dot) (Lit 62)).
(** [[^a-zA-Z\s]] *)
Definition re_non_letter : regex := Class not_letter_or_space.
(** [click\s+(here|link)] *)
Definition re_click : regex :=
  Seq (lit (utf8 "click"))
    (Seq (Plus is_space) (Alt (lit (utf8 "here")) (lit (utf8 "link")))).
(** [http[s]?://] *)
Definition re_link : regex :=
  Seq (lit (utf8 "http"))
    (Seq (Opt (Class (fun c => c =? 115))) (lit (utf8 "://"))).

(* ================================================================= *)
(** ** [preprocess_text] *)

Section Preprocess.
Variable U : UnicodeData.

Definition preprocess_text (text : str) : str :=
  let text := lower U text in
  let text := re_sub_empty re_url text in
  let text := re_sub_empty re_email text in
  let text := re_sub_empty re_tag text in
  let text := re_sub_empty re_non_letter text in
  let text := join (utf8 " ") (split text) in
  text.
End Preprocess.


(* ================================================================= *)
(** ** Exceptions *)

(** What a Python expression evaluates to: a value, or a raised
    exception (a subclass of [Exception]). *)
Inductive exn :=
| IndexError
| ValueError
| AttributeError
| ModelError (message : str).

Inductive py (A : Type) :=
| Ret (a : A)
| Raise (e : exn).
Arguments Ret {A} a.
Arguments Raise {A} e.

Definition bind {A B : Type} (m : py A) (f : A -> py B) : py B :=
  match m with
  | Ret a => f a
  | Raise e => Raise e
  end.

Notation "x <- m ;; f" := (bind m (fun x => f))
  (at level 61, m at next level, right associativity).

(** [l[0]] *)
Definition index0 {A : Type} (l : list A) : py A :=
  match l with
  | [] => Raise IndexError
  | x :: _ => Ret x
  end.

(** The loop of the builtin [max]: a later item replaces the current one
    when it compares greater. *)
Fixpoint max_from (cur : float) (l : list float) : float :=
  match l with
  | [] => cur
  | x :: t => if (cur <? x)%float then max_from x t else max_from cur t
  end.

(** [max(l)]: [ValueError] on an empty sequence. *)
Definition py_max (l : list float) : py float :=
  match l with
  | [] => Raise ValueError
  | x :: t => Ret (max_from x t)
  end.

(* ================================================================= *)
(** ** The classifier and the request *)

(** The unpickled model: its two methods, on a batch of texts. *)
Record Model := {
  predict : list str -> py (list Z);
  predict_proba : list str -> py (list (list float))
}.

(** The JSON object of the request, with string fields. *)
Definition dict := list (str * str).

(** [d.get(key, default)] *)
Fixpoint dict_get (d : dict) (key default : str) : str :=
  match d with
  | [] => default
  | (k, v) :: rest => if str_eqb k key then v else dict_get rest key default
  end.

(** Truth value of a string: [not s] holds for the empty string only. *)
Definition truthy (s : str) : bool :=
  match s with
  | [] => false
  | _ :: _ => true
  end.

Record AnalysisResult := {
  is_phishing : bool;
  confidence : str;
  reason : str;
  warning_signs : list str;
  ml_confidence : option str;
  model_used : str
}.

Inductive response :=
| Ok (result : AnalysisResult)
| BadRequest (error : str)
| InternalError (e : exn).

(* ================================================================= *)
(** ** Texts of the program *)

Definition err_no_data : str := utf8 "لم يتم استلام بيانات".
Definition err_empty_input : str := utf8 "الرجاء إدخال موضوع أو محتوى الإيميل".

Definition very_high : str := utf8 "عالية جداً".
Definition high : str := utf8 "عالية".
Definition medium : str := utf8 "متوسطة".
Definition low : str := utf8 "منخفضة".

Definition sign_verify : str := utf8 "طلب التحقق من البيانات الشخصية".
Definition sign_urgency : str := utf8 "استخدام لغة الاستعجال والضغط".
Definition sign_click : str := utf8 "طلب النقر على روابط مشبوهة".
Definition sign_sensitive : str := utf8 "طلب معلومات حساسة".
Definition sign_link : str := utf8 "يحتوي على روابط خارجية".
Definition sign_account : str := utf8 "يتعلق بمعلومات الحساب".
Definition sign_prize : str := utf8 "وعود بجوائز أو مكاسب".
Definition no_clear_signs : str := utf8 "لم يتم اكتشاف علامات تحذير واضحة".
Definition simple_keyword_analysis : str :=
  utf8 "تحليل بسيط باستخدام الكلمات المفتاحية".

Definition reason_ml_phishing : str :=
  utf8 "نموذج الذكاء الاصطناعي يتوقع أن هذا إيميل تصيد احتيالي بدرجة ثقة ".
Definition reason_ml_safe : str :=
  utf8 "نموذج الذكاء الاصطناعي يتوقع أن هذا إيميل آمن بدرجة ثقة ".
Definition reason_kw_found : str := utf8 "تم اكتشاف ".
Definition reason_kw_indicators : str := utf8 " مؤشرات للتصيد".
Definition reason_kw_none : str := utf8 "لا توجد مؤشرات واضحة للتصيد".

Definition ml_model_name : str := utf8 "ML Model (Naive Bayes)".
Definition keyword_fallback_name : str := utf8 "Keyword-based (Fallback)".

Definition phishing_keywords : list str :=
  [ utf8 "verify account"; utf8 "suspended account";
    utf8 "click here immediately"; utf8 "confirm your password";
    utf8 "update payment"; utf8 "urgent action";
    utf8 "verify your identity"; utf8 "unusual activity";
    utf8 "limited time" ].

(** [str(n)] for a count. *)
Definition str_of_nat (n : nat) : str :=
  utf8 (DecimalString.NilZero.string_of_uint (Nat.to_uint n)).

(* ================================================================= *)
(** ** [analyze_email] *)

Section Analyze.
Variable U : UnicodeData.
(** [f"{x:.1%}"] on a float. *)
Variable format_percent : float -> str.
(** The global [model]: [None] when loading failed. *)
Variable model : option Model.

(** The conditions of the seven warning-sign rules, on [full_email]. *)
Definition rule_verify (full_email : str) : bool :=
  let text_lower := lower U full_email in
  str_in (utf8 "verify") text_lower || str_in (utf8 "confirm") text_lower
  || str_in (utf8 "تأكيد") full_email || str_in (utf8 "تحديث") full_email.

Definition rule_urgency (full_email : str) : bool :=
  let text_lower := lower U full_email in
  str_in (utf8 "urgent") text_lower || str_in (utf8 "immediately") text_lower
  || str_in (utf8 "عاجل") full_email || str_in (utf8 "فوري") full_email.

Definition rule_click (full_email : str) : bool :=
  let text_lower := lower U full_email in
  re_search re_click text_lower || str_in (utf8 "اضغط هنا") full_email.

Definition rule_sensitive (full_email : str) : bool :=
  let text_lower := lower U full_email in
  str_in (utf8 "password") text_lower
  || str_in (utf8 "كلمة المرور") full_email
  || str_in (utf8 "كلمة السر") full_email.

Definition rule_link (full_email : str) : bool :=
  re_search re_link full_email.

Definition rule_account (full_email : str) : bool :=
  let text_lower := lower U full_email in
  str_in (utf8 "account") text_lower || str_in (utf8 "حساب") full_email.

Definition rule_prize (full_email : str) : bool :=
  let text_lower := lower U full_email in
  str_in (utf8 "prize") text_lower || str_in (utf8 "winner") text_lower
  || str_in (utf8 "جائزة") full_email.

(** [if cond: warning_signs.append(msg)] *)
Definition append_if (cond : bool) (msg : str) (l : list str) : list str :=
  if cond then l ++ [msg] else l.

(** The warning-sign block of the model branch. *)
Definition extract_warning_signs (full_email : str) : list str :=
  let warning_signs := [] in
  let warning_signs := append_if (rule_verify full_email) sign_verify warning_signs in
  let warning_signs := append_if (rule_urgency full_email) sign_urgency warning_signs in
  let warning_signs := append_if (rule_click full_email) sign_click warning_signs in
  let warning_signs := append_if (rule_sensitive full_email) sign_sensitive warning_signs in
  let warning_signs := append_if (rule_link full_email) sign_link warning_signs in
  let warning_signs := append_if (rule_account full_email) sign_account warning_signs in
  let warning_signs := append_if (rule_prize full_email) sign_prize warning_signs in
  match warning_signs with
  | [] => [no_clear_signs]
  | _ => warning_signs
  end.

(** The chain of thresholds on [confidence_score]. *)
Definition confidence_of_score (confidence_score : float) : str :=
  if (0.9 <=? confidence_score)%float then very_high
  else if (0.75 <=? confidence_score)%float then high
  else if (0.6 <=? confidence_score)%float then medium
  else low.

(** The body of the inner [try]: everything that may raise there. *)
Definition ml_analysis (m : Model) (full_email processed_email : str)
  : py AnalysisResult :=
  predictions <- predict m [processed_email] ;;
  prediction <- index0 predictions ;;
  probas <- predict_proba m [processed_email] ;;
  proba <- index0 probas ;;
  let is_phishing := (prediction =? 1)%Z in
  confidence_score <- py_max proba ;;
  let confidence := confidence_of_score confidence_score in
  let warning_signs := extract_warning_signs full_email in
  let reason :=
    if is_phishing
    then reason_ml_phishing ++ format_percent confidence_score
    else reason_ml_safe ++ format_percent confidence_score in
  Ret {| is_phishing := is_phishing;
         confidence := confidence;
         reason := reason;
         warning_signs := warning_signs;
         ml_confidence := Some (format_percent confidence_score);
         model_used := ml_model_name |}.

(** [sum(1 for keyword in phishing_keywords if keyword in text_lower)] *)
Fixpoint count_in (keywords : list str) (text_lower : str) : nat :=
  match keywords with
  | [] => 0%nat
  | keyword :: rest =>
    ((if str_in keyword text_lower then 1 else 0) + count_in rest text_lower)%nat
  end.

Definition phishing_score (full_email : str) : nat :=
  let text_lower := lower U full_email in
  count_in phishing_keywords text_lower.

(** The keyword fallback. *)
Definition keyword_analysis (full_email : str) : AnalysisResult :=
  let phishing_score := phishing_score full_email in
  let is_phishing := (2 <=? phishing_score)%nat in
  let confidence :=
    if (3 <=? phishing_score)%nat then high
    else if (1 <=? phishing_score)%nat then medium
    else low in
  let warning_signs := [simple_keyword_analysis] in
  let reason :=
    if is_phishing
    then reason_kw_found ++ str_of_nat phishing_score ++ reason_kw_indicators
    else reason_kw_none in
  {| is_phishing := is_phishing;
     confidence := confidence;
     reason := reason;
     warning_signs := warning_signs;
     ml_confidence := None;
     model_used := keyword_fallback_name |}.

(** The body of the outer [try].  [data] is what [request.get_json()]
    gave: [None], or a JSON object. *)
Definition analyze_body (data : option dict) : py response :=
  match data with
  | None | Some [] => Ret (BadRequest err_no_data)
  | Some d =>
    let subject := dict_get d (utf8 "subject") [] in
    let body := dict_get d (utf8 "body") [] in
    if negb (truthy subject) && negb (truthy body)
    then Ret (BadRequest err_empty_input)
    else
      let full_email := subject ++ utf8 " " ++ body in
      let processed_email := preprocess_text U full_email in
      match model with
      | Some m =>
        match ml_analysis m full_email processed_email with
        | Ret result => Ret (Ok result)
        | Raise _ => Ret (Ok (keyword_analysis full_email))
        end
      | None => Ret (Ok (keyword_analysis full_email))
      end
  end.

(** [analyze_email]: any exception leaving the body becomes the 500
    answer. *)
Definition analyze_email (data : option dict) : response :=
  match analyze_body data with
  | Ret r => r
  | Raise e => InternalError e
  end.
End Analyze.


(* ================================================================= *)
(** ** Vocabulary of the statements *)

(** The seven rules of the warning-sign block, in the order of the
    source, each with its message. *)
Definition warning_rules (U : UnicodeData) : list ((str -> bool) * str) :=
  [ (rule_verify U, sign_verify);
    (rule_urgency U, sign_urgency);
    (rule_click U, sign_click);
    (rule_sensitive U, sign_sensitive);
    (rule_link, sign_link);
    (rule_account U, sign_account);
    (rule_prize U, sign_prize) ].

(** The messages of the rules that match [full_email], in rule order. *)
Definition matching_signs (U : UnicodeData) (full_email : str) : list str :=
  map snd (filter (fun rule => fst rule full_email) (warning_rules U)).

(** [k] occurs in [s] as a contiguous substring. *)
Definition substring (k s : str) : Prop :=
  exists pre post, s = pre ++ k ++ post.

(** The fields of the request as [analyze_email] reads them: a missing
    field, like a missing object, reads as the empty string. *)
Definition field (data : option dict) (key : string) : str :=
  match data with
  | None => []
  | Some d => dict_get d (utf8 key) []
  end.

Definition full_email_of (data : option dict) : str :=
  field data "subject" ++ utf8 " " ++ field data "body".

(** No string occurs twice in [l]. *)
Definition nodupb (l : list str) : bool :=
  (fix go (l : list str) : bool :=
     match l with
     | [] => true
     | x :: t => negb (existsb (str_eqb x) t) && go t
     end) l.

(** The words a pattern denotes. *)
Inductive matches : regex -> str -> Prop :=
| M_Eps : matches Eps []
| M_Lit (c : char) : matches (Lit c) [c]
| M_Class (p : char -> bool) (c : char) :
    p c = true -> matches (Class p) [c]
| M_Seq (r1 r2 : regex) (w1 w2 : str) :
    matches r1 w1 -> matches r2 w2 -> matches (Seq r1 r2) (w1 ++ w2)
| M_Alt_l (r1 r2 : regex) (w : str) : matches r1 w -> matches (Alt r1 r2) w
| M_Alt_r (r1 r2 : regex) (w : str) : matches r2 w -> matches (Alt r1 r2) w
| M_Opt_some (r : regex) (w : str) : matches r w -> matches (Opt r) w
| M_Opt_none (r : regex) : matches (Opt r) []
| M_Plus (p : char -> bool) (c : char) (w : str) :
    p c = true -> Forall (fun x => p x = true) w -> matches (Plus p) (c :: w)
| M_StarLazy (p : char -> bool) (w : str) :
    Forall (fun x => p x = true) w -> matches (StarLazy p) w.

(** A word of normalised text: one or more lower-case ASCII letters. *)
Definition word (w : str) : Prop :=
  w <> [] /\ Forall (fun c => is_ascii_lower c = true) w.

(** Normalised text: words separated by single spaces. *)
Definition normalized (t : str) : Prop :=
  exists ws, Forall word ws /\ t = join (utf8 " ") ws.

(** The fact about the Unicode character database that the normaliser
    relies on: lower-casing a non-ASCII code point never yields an ASCII
    capital. *)
Definition lower_yields_no_ascii_capital (U : UnicodeData) : Prop :=
  forall c, 128 <= c ->
    Forall (fun d => is_ascii_upper d = false) (to_lower_full U c).

(** The Latin keywords of the warning-sign rules, each with the message
    of its rule. *)
Definition latin_keywords : list (str * str) :=
  [ (utf8 "verify", sign_verify); (utf8 "confirm", sign_verify);
    (utf8 "urgent", sign_urgency); (utf8 "immediately", sign_urgency);
    (utf8 "password", sign_sensitive); (utf8 "account", sign_account);
    (utf8 "prize", sign_prize); (utf8 "winner", sign_prize) ].

(** Reading the final small sigma as a small sigma: the only trace that
    the neighbours of a character leave in [str.lower]. *)
Definition sigma_blind (c : char) : char :=
  if c =? small_final_sigma then small_sigma else c.

(** [str.lower] read through [sigma_blind], one character at a time. *)
Definition lower_blind (U : UnicodeData) (c : char) : str :=
  if c =? capital_sigma then [small_sigma]
  else map sigma_blind (lower_char U c).

Definition no_sigma (k : str) : bool :=
  forallb (fun c => negb ((c =? small_final_sigma) || (c =? small_sigma))) k.

(** Sample inputs on which the statements are run. *)
Definition request (subject body : string) : option dict :=
  Some [(utf8 "subject", utf8 subject); (utf8 "body", utf8 body)].

(** A classifier whose [predict] raises. *)
Definition broken_model : Model := {|
  predict := fun _ => Raise (ModelError (utf8 "not fitted"));
  predict_proba := fun _ => Ret [[0.5; 0.5]%float]
|}.

(** A classifier that answers every text with one label and one row of
    per-class probabilities. *)
Definition constant_model (label : Z) (proba : list float) : Model := {|
  predict := fun _ => Ret [label];
  predict_proba := fun _ => Ret [proba]
|}.

(** A stand-in for the percent formatting of a score. *)
Definition percent_stub (x : float) : str := utf8 "%".

(* ================================================================= *)
(** ** Start-up and the health route *)

(** What opening and unpickling [phishing_model.pkl] came to. *)
Inductive load_outcome :=
| FileNotFound
| LoadFailed (e : exn)
| Loaded (m : Model).

(** The start-up block: [model] is [None] at first and stays so unless
    the file was opened and unpickled; both handlers only print. *)
Definition load_model (outcome : load_outcome) : option Model :=
  let model := None in
  match outcome with
  | Loaded m => Some m
  | FileNotFound => model
  | LoadFailed _ => model
  end.

Record Health := {
  status : str;
  model_loaded : bool
}.

(** [health_check] *)
Definition health_check (model : option Model) : Health :=
  {| status := utf8 "running";
     model_loaded := match model with Some _ => true | None => false end |}.

Definition is_ascii_letter (c : char) : bool :=
  is_ascii_lower c || is_ascii_upper c.

(** Every message that can occur among the warning signs of an answer. *)
Definition known_signs : list str :=
  [sign_verify; sign_urgency; sign_click; sign_sensitive; sign_link;
   sign_account; sign_prize; no_clear_signs; simple_keyword_analysis].

(** [k] occurs in [s] up to the case of ASCII letters: some substring
    of [s] has the same letters as [k] once capitals are lowered. *)
Definition occurs_ignoring_case (k s : str) : Prop :=
  exists pre w post,
    s = pre ++ w ++ post /\ map ascii_lower w = map ascii_lower k.

(** ASCII text without capitals. *)
Definition lower_ascii (k : str) : bool :=
  forallb (fun c => (c <? 128) && negb (is_ascii_upper c)) k.

(* ================================================================= *)
(** ** The route, from [request.get_json()] on *)

(** A parsed JSON value.  Of an object the string fields are modelled,
    as in the interface of the analysis. *)
Inductive json :=
| JNull
| JBool (b : bool)
| JInt (n : Z)
| JFloat (x : float)
| JString (s : str)
| JArray (items : list json)
| JObject (d : dict).

(** Truth value of a parsed JSON value: [not data] holds for [None],
    [False], zero, and the empty string, list and dict. *)
Definition json_truthy (data : json) : bool :=
  match data with
  | JNull => false
  | JBool b => b
  | JInt n => negb (n =? 0)%Z
  | JFloat x => negb (x =? 0)%float
  | JString s => truthy s
  | JArray items => match items with [] => false | _ :: _ => true end
  | JObject d => match d with [] => false | _ :: _ => true end
  end.

(** Looking up [data.get]: only a dict has the method. *)
Definition get_method (data : json) : py dict :=
  match data with
  | JObject d => Ret d
  | _ => Raise AttributeError
  end.

(** The body of the outer [try], with [got] for what
    [request.get_json()] came to: it raises on a request without a JSON
    body, and otherwise returns the parsed value. *)
Definition analyze_request_body (U : UnicodeData)
           (format_percent : float -> str) (model : option Model)
           (got : py json) : py response :=
  data <- got ;;
  if negb (json_truthy data) then Ret (BadRequest err_no_data)
  else
    d <- get_method data ;;
    analyze_body U format_percent model (Some d).

(** The route: any exception of the body becomes the 500 answer. *)
Definition analyze_request (U : UnicodeData)
           (format_percent : float -> str) (model : option Model)
           (got : py json) : response :=
  match analyze_request_body U format_percent model got with
  | Ret r => r
  | Raise e => InternalError e
  end.

(* ================================================================= *)
(** ** Strings: basic facts *)

Lemma char_eqb_eq (a b : char) : char_eqb a b = true <-> a = b.
Proof. apply N.eqb_eq. Qed.

Lemma char_eqb_refl (a : char) : char_eqb a a = true.
Proof. apply N.eqb_refl. Qed.

Lemma str_eqb_eq (a b : str) : str_eqb a b = true <-> a = b.
Proof.
  revert b; induction a as [|x a IH]; intros [|y b]; simpl;
    try (split; [discriminate | congruence]); try tauto.
  rewrite andb_true_iff, char_eqb_eq, IH.
  split; [intros [-> ->]; reflexivity | intros H; inversion H; auto].
Qed.

Lemma existsb_str_eqb_In (x : str) (l : list str) :
  existsb (str_eqb x) l = true <-> In x l.
Proof.
  rewrite existsb_exists; split.
  - intros (y & Hin & Heq). apply str_eqb_eq in Heq. now subst.
  - intros Hin. exists x. split; [assumption | now apply str_eqb_eq].
Qed.

Lemma nodupb_NoDup (l : list str) : nodupb l = true -> NoDup l.
Proof.
  induction l as [|x l IH]; simpl; intros H; constructor;
    apply andb_true_iff in H; destruct H as [Hx Hl].
  - intros Hin. apply existsb_str_eqb_In in Hin.
    rewrite Hin in Hx. discriminate.
  - now apply IH.
Qed.

Lemma prefixb_spec (k s : str) :
  prefixb k s = true <-> exists post, s = k ++ post.
Proof.
  revert s; induction k as [|x k IH]; intros s; simpl.
  - split; [intros _; now exists s | reflexivity].
  - destruct s as [|y s].
    + split; [discriminate | intros [post H]; discriminate].
    + rewrite andb_true_iff, char_eqb_eq, IH. split.
      * intros [-> [post ->]]. now exists post.
      * intros [post H]. inversion H. split; [reflexivity | now exists post].
Qed.

Lemma str_in_spec (k s : str) : str_in k s = true <-> substring k s.
Proof.
  unfold substring. induction s as [|c s IH]; simpl.
  - rewrite orb_false_r, prefixb_spec. split.
    + intros [post H]. now exists [], post.
    + intros (pre & post & H). destruct pre as [|? ?]; [|discriminate].
      now exists post.
  - rewrite orb_true_iff, prefixb_spec, IH. split.
    + intros [[post H] | (pre & post & H)].
      * now exists [], post.
      * exists (c :: pre), post. now rewrite H.
    + intros (pre & post & H). destruct pre as [|d pre].
      * left. now exists post.
      * right. inversion H. now exists pre, post.
Qed.

Lemma str_in_app (k a b : str) :
  str_in k a = true -> str_in k (a ++ b) = true.
Proof.
  rewrite !str_in_spec. intros (pre & post & ->).
  exists pre, (post ++ b). now rewrite <- !app_assoc.
Qed.

(* ================================================================= *)
(** ** The request check and the two-tier decision *)

Section Decision.
Variable U : UnicodeData.
Variable format_percent : float -> str.

Lemma dict_get_absent (d : dict) (key default : str) :
  (forall v, ~ In (key, v) d) -> dict_get d key default = default.
Proof.
  induction d as [|[k v] d IH]; simpl; intros H; [reflexivity|].
  destruct (str_eqb k key) eqn:E.
  - apply str_eqb_eq in E. subst. exfalso. apply (H v). now left.
  - apply IH. intros w Hin. apply (H w). now right.
Qed.

Lemma truthy_false (s : str) : truthy s = false <-> s = [].
Proof. destruct s; simpl; split; congruence. Qed.

(** With a non-empty subject or body the answer is an analysis: that of
    the model when its branch returns, the keyword one otherwise. *)
Lemma analyze_email_nonempty (model : option Model) (data : option dict) :
  field data "subject" <> [] \/ field data "body" <> [] ->
  analyze_email U format_percent model data =
  Ok match model with
     | Some m =>
       match ml_analysis U format_percent m (full_email_of data)
               (preprocess_text U (full_email_of data)) with
       | Ret result => result
       | Raise _ => keyword_analysis U (full_email_of data)
       end
     | None => keyword_analysis U (full_email_of data)
     end.
Proof.
  intros H. unfold analyze_email, analyze_body, full_email_of.
  destruct data as [[|kv d]|]; simpl in H; try tauto.
  change (field (Some (kv :: d)) "subject")
    with (dict_get (kv :: d) (utf8 "subject") []).
  change (field (Some (kv :: d)) "body")
    with (dict_get (kv :: d) (utf8 "body") []).
  unfold field in H.
  destruct (dict_get (kv :: d) (utf8 "subject") []) as [|c s] eqn:Es;
    destruct (dict_get (kv :: d) (utf8 "body") []) as [|c' b] eqn:Eb;
    try tauto; cbn [truthy negb andb];
    destruct model as [m|]; try reflexivity;
    match goal with
    | |- context [ml_analysis ?a ?b ?c ?d ?e] =>
      destruct (ml_analysis a b c d e); reflexivity
    end.
Qed.

Lemma analyze_email_empty (model : option Model) (data : option dict) :
  field data "subject" = [] -> field data "body" = [] ->
  analyze_email U format_percent model data = BadRequest err_no_data \/
  analyze_email U format_percent model data = BadRequest err_empty_input.
Proof.
  intros Hs Hb. unfold analyze_email, analyze_body.
  destruct data as [[|kv d]|]; [left; reflexivity | | left; reflexivity].
  unfold field in Hs, Hb. rewrite Hs, Hb. right. reflexivity.
Qed.

(** C7. [analyze_email] answers with a validation error (status 400)
    exactly when the subject and the body are both empty or absent, and
    then no analysis result is produced; in every other case it answers
    with an analysis result. *)
Theorem invalid_input_iff_both_empty (model : option Model) (data : option dict) :
  ((exists error, analyze_email U format_percent model data = BadRequest error)
   <-> field data "subject" = [] /\ field data "body" = [])
  /\ ((exists result, analyze_email U format_percent model data = Ok result)
      <-> ~ (field data "subject" = [] /\ field data "body" = [])).
Proof.
  destruct (field data "subject") as [|c s] eqn:Es;
    destruct (field data "body") as [|c' b] eqn:Eb.
  - destruct (analyze_email_empty model data Es Eb) as [E|E]; rewrite E;
      (split; split;
       [ intros _; split; reflexivity
       | intros _; eexists; reflexivity
       | intros [r H]; discriminate
       | intros H; exfalso; apply H; split; reflexivity ]).
  - rewrite analyze_email_nonempty by (rewrite Eb; right; discriminate).
    split; split;
      [ intros [e H]; discriminate | intros [_ H]; discriminate
      | intros _ [_ H]; discriminate | intros _; eexists; reflexivity ].
  - rewrite analyze_email_nonempty by (rewrite Es; left; discriminate).
    split; split;
      [ intros [e H]; discriminate | intros [H _]; discriminate
      | intros _ [H _]; discriminate | intros _; eexists; reflexivity ].
  - rewrite analyze_email_nonempty by (rewrite Es; left; discriminate).
    split; split;
      [ intros [e H]; discriminate | intros [H _]; discriminate
      | intros _ [H _]; discriminate | intros _; eexists; reflexivity ].
Qed.

Lemma ml_analysis_raises (m : Model) (full_email processed_email : str) :
  (exists e, predict m [processed_email] = Raise e) \/
  (exists e, predict_proba m [processed_email] = Raise e) ->
  exists e, ml_analysis U format_percent m full_email processed_email = Raise e.
Proof.
  unfold ml_analysis. intros [[e H] | [e H]].
  - rewrite H. simpl. eauto.
  - destruct (predict m [processed_email]) as [[|p ps]|e']; simpl; eauto.
    rewrite H. simpl. eauto.
Qed.

(** C2. With a non-empty subject or body and a loaded classifier whose
    [predict] or [predict_proba] raises on the request's text, the answer
    is not an error: it is the result of the keyword heuristic, and its
    [model_used] names the keyword fallback. *)
Theorem classifier_error_falls_back (m : Model) (data : option dict) :
  field data "subject" <> [] \/ field data "body" <> [] ->
  (exists e, predict m [preprocess_text U (full_email_of data)] = Raise e) \/
  (exists e, predict_proba m [preprocess_text U (full_email_of data)] = Raise e) ->
  analyze_email U format_percent (Some m) data
    = Ok (keyword_analysis U (full_email_of data))
  /\ model_used (keyword_analysis U (full_email_of data)) = keyword_fallback_name.
Proof.
  intros Hne Hraise. split; [|reflexivity].
  rewrite analyze_email_nonempty by assumption.
  destruct (ml_analysis_raises m (full_email_of data) _ Hraise) as [e ->].
  reflexivity.
Qed.

(** C6. An answer given in fallback mode (no classifier loaded, or the
    model branch raised on this request) carries as warning signs exactly
    the one message saying that a simple keyword analysis was used,
    whatever the text; the seven rules play no part in it. *)
Theorem fallback_warning_signs_fixed (model : option Model) (data : option dict) :
  field data "subject" <> [] \/ field data "body" <> [] ->
  match model with
  | None => True
  | Some m =>
    exists e, ml_analysis U format_percent m (full_email_of data)
                (preprocess_text U (full_email_of data)) = Raise e
  end ->
  exists result,
    analyze_email U format_percent model data = Ok result
    /\ model_used result = keyword_fallback_name
    /\ warning_signs result = [simple_keyword_analysis].
Proof.
  intros Hne Hfb. rewrite analyze_email_nonempty by assumption.
  destruct model as [m|].
  - destruct Hfb as [e ->]. eexists. repeat split.
  - eexists. repeat split.
Qed.
End Decision.

Lemma classifier_error_falls_back_witness :
  analyze_email ascii_only percent_stub (Some broken_model)
      (request "Urgent action" "verify account now")
    = Ok (keyword_analysis ascii_only
            (full_email_of (request "Urgent action" "verify account now")))
  /\ model_used (keyword_analysis ascii_only
        (full_email_of (request "Urgent action" "verify account now")))
     = keyword_fallback_name.
Proof.
  apply (classifier_error_falls_back ascii_only percent_stub broken_model
           (request "Urgent action" "verify account now")).
  - left. vm_compute. discriminate.
  - left. eexists. reflexivity.
Defined.

Lemma fallback_warning_signs_fixed_witness :
  exists result,
    analyze_email ascii_only percent_stub None
      (request "Your account" "click here http://x.y password") = Ok result
    /\ model_used result = keyword_fallback_name
    /\ warning_signs result = [simple_keyword_analysis].
Proof.
  apply (fallback_warning_signs_fixed ascii_only percent_stub None
           (request "Your account" "click here http://x.y password")).
  - left. vm_compute. discriminate.
  - exact I.
Defined.

(* ================================================================= *)
(** ** The text normaliser on the examples *)

(** C8. The two worked examples of the normaliser: digits and
    punctuation are dropped and the case is lowered; a URL and an e-mail
    address are dropped and the white space around them is collapsed. *)
Theorem preprocess_text_examples (U : UnicodeData) :
  preprocess_text U (utf8 "Verify123 now!!") = utf8 "verify now"
  /\ preprocess_text U (utf8 "go to http://x.com or a@b.com") = utf8 "go to or".
Proof. split; vm_compute; reflexivity. Qed.

(* ================================================================= *)
(** ** The keyword heuristic *)

Lemma str_neq (a b : str) : str_eqb a b = false -> a <> b.
Proof.
  intros H E. apply str_eqb_eq in E. rewrite E in H. discriminate.
Qed.

Lemma confidence_labels_distinct : NoDup [very_high; high; medium; low].
Proof. apply nodupb_NoDup. vm_compute. reflexivity. Qed.

Lemma count_in_filter (keywords : list str) (text_lower : str) :
  count_in keywords text_lower
  = length (filter (fun keyword => str_in keyword text_lower) keywords).
Proof.
  induction keywords as [|k ks IH]; simpl; [reflexivity|].
  rewrite IH. destruct (str_in k text_lower); reflexivity.
Qed.

Lemma filter_length_le {A : Type} (f : A -> bool) (l : list A) :
  (length (filter f l) <= length l)%nat.
Proof.
  induction l as [|x l IH]; simpl; [lia|]. destruct (f x); simpl; lia.
Qed.


(* ================================================================= *)
(** ** The warning-sign rules *)

Lemma warning_signs_distinct :
  NoDup [sign_verify; sign_urgency; sign_click; sign_sensitive; sign_link;
         sign_account; sign_prize; no_clear_signs].
Proof. apply nodupb_NoDup. vm_compute. reflexivity. Qed.

(** The block on given outcomes of the seven conditions. *)
Lemma extract_warning_signs_unfold (U : UnicodeData) (full_email : str) :
  extract_warning_signs U full_email =
  match matching_signs U full_email with
  | [] => [no_clear_signs]
  | signs => signs
  end.
Proof.
  unfold extract_warning_signs, matching_signs, warning_rules, append_if.
  cbn [filter map fst snd app].
  destruct (rule_verify U full_email), (rule_urgency U full_email),
    (rule_click U full_email), (rule_sensitive U full_email),
    (rule_link full_email), (rule_account U full_email),
    (rule_prize U full_email); cbn [filter map fst snd app]; reflexivity.
Qed.

Lemma matching_signs_In (U : UnicodeData) (full_email sign : str) :
  In sign (matching_signs U full_email) <->
  exists rule, In (rule, sign) (warning_rules U) /\ rule full_email = true.
Proof.
  unfold matching_signs. rewrite in_map_iff. split.
  - intros ([rule sign'] & Hs & Hin). simpl in Hs. subst sign'.
    apply filter_In in Hin. destruct Hin as [Hin Hm]. now exists rule.
  - intros (rule & Hin & Hm). exists (rule, sign). split; [reflexivity|].
    apply filter_In. now split.
Qed.

Lemma filter_keeps_NoDup_map {X Y : Type} (keep : X -> bool) (g : X -> Y)
      (xs : list X) :
  NoDup (map g xs) -> NoDup (map g (filter keep xs)).
Proof.
  intros Hnd. induction xs as [|x xs IH]; simpl; [constructor|].
  simpl in Hnd. apply NoDup_cons_iff in Hnd. destruct Hnd as [Hx Hxs].
  destruct (keep x); simpl; [|now apply IH].
  apply NoDup_cons; [|now apply IH].
  rewrite in_map_iff. intros (y & Hy & Hin). apply Hx.
  apply filter_In in Hin. rewrite in_map_iff. exists y. tauto.
Qed.

Lemma NoDup_map_snd_functional {A B : Type} (l : list (A * B)) (a a' : A) (b : B) :
  NoDup (map snd l) -> In (a, b) l -> In (a', b) l -> a = a'.
Proof.
  induction l as [|[x y] l IH]; simpl; intros Hnd H1 H2; [contradiction|].
  inversion Hnd as [|? ? Hy Hl]; subst.
  destruct H1 as [H1|H1], H2 as [H2|H2].
  - congruence.
  - inversion H1; subst. exfalso. apply Hy.
    apply in_map_iff. now exists (a', b).
  - inversion H2; subst. exfalso. apply Hy.
    apply in_map_iff. now exists (a, b).
  - now apply IH.
Qed.

Lemma warning_rules_signs (U : UnicodeData) :
  map snd (warning_rules U)
  = [sign_verify; sign_urgency; sign_click; sign_sensitive; sign_link;
     sign_account; sign_prize].
Proof. reflexivity. Qed.

Lemma warning_rules_NoDup (U : UnicodeData) :
  NoDup (map snd (warning_rules U)).
Proof.
  rewrite warning_rules_signs.
  pose proof warning_signs_distinct as H.
  change [sign_verify; sign_urgency; sign_click; sign_sensitive; sign_link;
          sign_account; sign_prize; no_clear_signs]
    with ([sign_verify; sign_urgency; sign_click; sign_sensitive; sign_link;
           sign_account; sign_prize] ++ [no_clear_signs]) in H.
  now apply NoDup_app_remove_r in H.
Qed.

Lemma no_clear_signs_not_a_rule_sign (U : UnicodeData) (rule : str -> bool) :
  ~ In (rule, no_clear_signs) (warning_rules U).
Proof.
  intros Hin.
  assert (H : In no_clear_signs (map snd (warning_rules U)))
    by (apply in_map_iff; now exists (rule, no_clear_signs)).
  rewrite warning_rules_signs in H.
  apply (proj2 (existsb_str_eqb_In _ _)) in H.
  vm_compute in H. discriminate.
Qed.

Lemma matching_signs_In_rule (U : UnicodeData) (full_email : str)
      (rule : str -> bool) (sign : str) :
  In (rule, sign) (warning_rules U) ->
  (In sign (matching_signs U full_email) <-> rule full_email = true).
Proof.
  intros Hr. rewrite matching_signs_In. split.
  - intros (rule' & Hr' & Hm).
    now rewrite (NoDup_map_snd_functional _ _ _ _ (warning_rules_NoDup U) Hr Hr').
  - intros Hm. now exists rule.
Qed.

(** The message of a rule is in the answer exactly when the rule's
    condition holds. *)
Lemma extract_warning_signs_In (U : UnicodeData) (full_email : str)
      (rule : str -> bool) (sign : str) :
  In (rule, sign) (warning_rules U) ->
  (In sign (extract_warning_signs U full_email) <-> rule full_email = true).
Proof.
  intros Hr. rewrite extract_warning_signs_unfold.
  rewrite <- (matching_signs_In_rule U full_email rule sign Hr).
  destruct (matching_signs U full_email) as [|s l]; [|reflexivity].
  split; [|intros []].
  intros [<-|[]]. exfalso. exact (no_clear_signs_not_a_rule_sign U rule Hr).
Qed.

(** C5. The warning-sign block is the list of the messages of the rules
    whose condition holds, in the order of the seven rules, and the
    placeholder alone when that list is empty.  Hence each rule's message
    is present exactly when its own condition holds, no message occurs
    twice, the answer is the placeholder alone exactly when no condition
    holds, and the answer is never empty. *)
Theorem warning_signs_contract (U : UnicodeData) (full_email : str) :
  let signs := extract_warning_signs U full_email in
  length (warning_rules U) = 7%nat
  /\ signs = match matching_signs U full_email with
             | [] => [no_clear_signs]
             | hits => hits
             end
  /\ (forall rule sign, In (rule, sign) (warning_rules U) ->
        (In sign signs <-> rule full_email = true))
  /\ NoDup signs
  /\ (signs = [no_clear_signs] <->
      forall rule sign, In (rule, sign) (warning_rules U) ->
                        rule full_email = false)
  /\ signs <> [].
Proof.
  intros signs. unfold signs. rewrite extract_warning_signs_unfold.
  assert (Hin : forall rule sign, In (rule, sign) (warning_rules U) ->
            (In sign (matching_signs U full_email) <-> rule full_email = true))
    by (intros rule sign; apply matching_signs_In_rule).
  assert (Hnd : NoDup (matching_signs U full_email))
    by (apply filter_keeps_NoDup_map, warning_rules_NoDup).
  assert (Hempty : matching_signs U full_email = [] <->
            forall rule sign, In (rule, sign) (warning_rules U) ->
                              rule full_email = false).
  { split.
    - intros E rule sign Hr. destruct (rule full_email) eqn:Hm; [|reflexivity].
      apply (Hin rule sign Hr) in Hm. rewrite E in Hm. contradiction.
    - intros Hall. destruct (matching_signs U full_email) as [|s l] eqn:E;
        [reflexivity|].
      assert (Hs : In s (matching_signs U full_email)) by (rewrite E; now left).
      apply matching_signs_In in Hs. destruct Hs as (rule & Hr & Hm).
      rewrite (Hall rule s Hr) in Hm. discriminate. }
  split; [reflexivity|]. split; [reflexivity|].
  destruct (matching_signs U full_email) as [|s l] eqn:E.
  - split; [|split; [|split]].
    + intros rule sign Hr. rewrite <- (Hin rule sign Hr). split.
      * intros [<-|[]]. exfalso.
        exact (no_clear_signs_not_a_rule_sign U rule Hr).
      * intros [].
    + repeat constructor. intros [].
    + split; [intros _; now apply Hempty | reflexivity].
    + discriminate.
  - split; [|split; [|split]].
    + exact Hin.
    + exact Hnd.
    + split.
      * intros Heq. exfalso.
        assert (Hs : In no_clear_signs (matching_signs U full_email))
          by (rewrite E, Heq; now left).
        apply matching_signs_In in Hs. destruct Hs as (rule & Hr & _).
        exact (no_clear_signs_not_a_rule_sign U rule Hr).
      * intros Hall. apply Hempty in Hall. discriminate.
    + discriminate.
Qed.

(* ================================================================= *)
(** ** The matcher against the words of a pattern *)

Section MatcherFacts.
Context {A : Type}.

Lemma plus_greedy_sound (p : char -> bool) (s : str) (k : str -> option A) (x : A) :
  plus_greedy p s k = Some x ->
  exists c w rest, s = (c :: w) ++ rest /\ p c = true
                   /\ Forall (fun y => p y = true) w /\ k rest = Some x.
Proof.
  revert x. induction s as [|c t IH]; simpl; intros x H; [discriminate|].
  destruct (p c) eqn:Hc; [|discriminate].
  destruct (plus_greedy p t k) as [y|] eqn:Hrec.
  - destruct (IH y eq_refl) as (c' & w & rest & -> & Hc' & Hw & Hk).
    exists c, (c' :: w), rest. repeat split; auto. congruence.
  - exists c, [], t. repeat split; auto.
Qed.

Lemma star_lazy_sound (p : char -> bool) (s : str) (k : str -> option A) (x : A) :
  star_lazy p s k = Some x ->
  exists w rest, s = w ++ rest /\ Forall (fun y => p y = true) w
                 /\ k rest = Some x.
Proof.
  revert x. induction s as [|c t IH]; simpl; intros x H.
  - destruct (k []) eqn:Hk; [|discriminate].
    exists [], []. repeat split; auto. congruence.
  - destruct (k (c :: t)) eqn:Hk.
    + exists [], (c :: t). repeat split; auto. congruence.
    + destruct (p c) eqn:Hc; [|discriminate].
      destruct (IH x H) as (w & rest & -> & Hw & Hk').
      exists (c :: w), rest. repeat split; auto.
Qed.

(** Soundness: whatever the matcher accepts is a word of the pattern
    followed by a rest that the continuation accepts. *)
Lemma rmatch_sound (r : regex) :
  forall (s : str) (k : str -> option A) (x : A),
    rmatch r s k = Some x ->
    exists w rest, s = w ++ rest /\ matches r w /\ k rest = Some x.
Proof.
  induction r as [|c|p|r1 IH1 r2 IH2|r1 IH1 r2 IH2|r1 IH1|p|p];
    intros s k x H; simpl in H.
  - exists [], s. repeat split; auto. constructor.
  - destruct s as [|y t]; [discriminate|].
    destruct (char_eqb y c) eqn:E; [|discriminate].
    apply char_eqb_eq in E. subst y.
    exists [c], t. repeat split; auto. constructor.
  - destruct s as [|y t]; [discriminate|].
    destruct (p y) eqn:E; [|discriminate].
    exists [y], t. repeat split; auto. now constructor.
  - apply IH1 in H. destruct H as (w1 & rest1 & -> & Hm1 & H).
    apply IH2 in H. destruct H as (w2 & rest2 & -> & Hm2 & H).
    exists (w1 ++ w2), rest2. rewrite app_assoc. repeat split; auto.
    now constructor.
  - destruct (rmatch r1 s k) as [y|] eqn:E.
    + inversion H; subst y. apply IH1 in E.
      destruct E as (w & rest & -> & Hm & Hk).
      exists w, rest. repeat split; auto. now apply M_Alt_l.
    + apply IH2 in H. destruct H as (w & rest & -> & Hm & Hk).
      exists w, rest. repeat split; auto. now apply M_Alt_r.
  - destruct (rmatch r1 s k) as [y|] eqn:E.
    + inversion H; subst y. apply IH1 in E.
      destruct E as (w & rest & -> & Hm & Hk).
      exists w, rest. repeat split; auto. now apply M_Opt_some.
    + exists [], s. repeat split; auto. apply M_Opt_none.
  - apply plus_greedy_sound in H.
    destruct H as (c & w & rest & -> & Hc & Hw & Hk).
    exists (c :: w), rest. repeat split; auto. now constructor.
  - apply star_lazy_sound in H.
    destruct H as (w & rest & -> & Hw & Hk).
    exists w, rest. repeat split; auto. now constructor.
Qed.

Lemma plus_greedy_complete (p : char -> bool) (w rest : str)
      (k : str -> option A) :
  Forall (fun y => p y = true) w -> w <> [] ->
  (exists y, k rest = Some y) ->
  exists x, plus_greedy p (w ++ rest) k = Some x.
Proof.
  intros Hw. induction Hw as [|c w Hc Hw IH]; intros Hne Hk; [congruence|].
  simpl. rewrite Hc. destruct w as [|c' w'].
  - simpl. destruct (plus_greedy p rest k); eauto.
  - destruct IH as [x ->]; [discriminate | assumption | eauto].
Qed.

Lemma star_lazy_complete (p : char -> bool) (w rest : str)
      (k : str -> option A) :
  Forall (fun y => p y = true) w ->
  (exists y, k rest = Some y) ->
  exists x, star_lazy p (w ++ rest) k = Some x.
Proof.
  intros Hw. induction Hw as [|c w Hc Hw IH]; intros Hk.
  - destruct Hk as [y Hk]. simpl. destruct rest; simpl; rewrite Hk; eauto.
  - simpl. destruct (k (c :: w ++ rest)); [eauto|]. rewrite Hc. now apply IH.
Qed.

(** Completeness: where a word of the pattern is followed by a rest that
    the continuation accepts, the matcher finds a match. *)
Lemma rmatch_complete (r : regex) (w : str) :
  matches r w ->
  forall (rest : str) (k : str -> option A),
    (exists y, k rest = Some y) ->
    exists x, rmatch r (w ++ rest) k = Some x.
Proof.
  induction 1 as [|c|p c Hc|r1 r2 w1 w2 H1 IH1 H2 IH2|r1 r2 w H IH
                 |r1 r2 w H IH|r w H IH|r|p c w Hc Hw|p w Hw];
    intros rest k Hk; simpl.
  - exact Hk.
  - now rewrite char_eqb_refl.
  - now rewrite Hc.
  - rewrite <- app_assoc. apply IH1. now apply IH2.
  - destruct (IH rest k Hk) as [x ->]. eauto.
  - destruct (rmatch r1 (w ++ rest) k); eauto.
  - destruct (IH rest k Hk) as [x ->]. eauto.
  - destruct (rmatch r rest k); eauto.
  - apply (plus_greedy_complete p (c :: w)); auto. discriminate.
  - now apply star_lazy_complete.
Qed.
End MatcherFacts.

(* ================================================================= *)
(** ** [re.search] *)

Lemma match_at_sound (r : regex) (s rest : str) :
  match_at r s = Some rest -> exists w, s = w ++ rest /\ matches r w.
Proof.
  unfold match_at. intros H. apply rmatch_sound in H.
  destruct H as (w & rest' & -> & Hm & Hk). inversion Hk; subst. eauto.
Qed.

Lemma match_at_complete (r : regex) (w rest : str) :
  matches r w -> exists rest', match_at r (w ++ rest) = Some rest'.
Proof.
  intros Hm. unfold match_at. apply rmatch_complete; eauto.
Qed.

(** [re.search] succeeds exactly on the texts that contain a word of the
    pattern. *)
Lemma re_search_spec (r : regex) (s : str) :
  re_search r s = true <->
  exists pre w post, s = pre ++ w ++ post /\ matches r w.
Proof.
  split.
  - induction s as [|c t IH]; simpl.
    + destruct (match_at r []) as [rest|] eqn:E; [|discriminate].
      intros _. apply match_at_sound in E. destruct E as (w & -> & Hm).
      now exists [], w, rest.
    + destruct (match_at r (c :: t)) as [rest|] eqn:E.
      * intros _. apply match_at_sound in E. destruct E as (w & E & Hm).
        exists [], w, rest. now split.
      * intros H. destruct (IH H) as (pre & w & post & -> & Hm).
        now exists (c :: pre), w, post.
  - intros (pre & w & post & -> & Hm).
    induction pre as [|c pre IH].
    + destruct (match_at_complete r w post Hm) as [rest E]. simpl.
      destruct (w ++ post); simpl; rewrite E; reflexivity.
    + simpl. destruct (match_at r (c :: pre ++ w ++ post)); auto.
Qed.

Lemma matches_lit (s w : str) : matches (lit s) w <-> w = s.
Proof.
  revert w. induction s as [|c s IH]; simpl; intros w.
  - split; [intros H; now inversion H | intros ->; constructor].
  - split.
    + intros H. inversion H as [| | |r1 r2 w1 w2 H1 H2| | | | | |]; subst.
      inversion H1; subst. apply IH in H2. now subst.
    + intros ->. change (c :: s) with ([c] ++ s).
      constructor; [constructor | now apply IH].
Qed.

Lemma matches_re_link (w : str) :
  matches re_link w <-> w = utf8 "http://" \/ w = utf8 "https://".
Proof.
  unfold re_link. split.
  - intros H. inversion H as [| | |r1 r2 w1 w23 H1 H23| | | | | |]; subst.
    inversion H23 as [| | |r1 r2 w2 w3 H2 H3| | | | | |]; subst.
    apply (proj1 (matches_lit (utf8 "http") _)) in H1.
    apply (proj1 (matches_lit (utf8 "://") _)) in H3. subst.
    inversion H2 as [| | | | | |r w Hs|r| |]; subst.
    + inversion Hs as [| |p c Hc| | | | | | |]; subst.
      apply N.eqb_eq in Hc. subst. right. reflexivity.
    + left. reflexivity.
  - intros [-> | ->].
    + change (utf8 "http://") with (utf8 "http" ++ [] ++ utf8 "://").
      constructor; [now apply matches_lit|].
      constructor; [apply M_Opt_none | now apply matches_lit].
    + change (utf8 "https://") with (utf8 "http" ++ [115] ++ utf8 "://").
      constructor; [now apply matches_lit|].
      constructor; [|now apply matches_lit].
      apply M_Opt_some. now constructor.
Qed.

(** Rule 5 looks for the literal texts in the text as it was given. *)
Lemma rule_link_spec (full_email : str) :
  rule_link full_email = true <->
  substring (utf8 "http://") full_email
  \/ substring (utf8 "https://") full_email.
Proof.
  unfold rule_link. rewrite re_search_spec. unfold substring. split.
  - intros (pre & w & post & -> & Hm). apply matches_re_link in Hm.
    destruct Hm as [-> | ->]; [left | right]; now exists pre, post.
  - intros [(pre & post & ->) | (pre & post & ->)].
    + exists pre, (utf8 "http://"), post. split; [reflexivity|].
      apply matches_re_link. now left.
    + exists pre, (utf8 "https://"), post. split; [reflexivity|].
      apply matches_re_link. now right.
Qed.

(* ================================================================= *)
(** ** Case sensitivity of the link rule *)

Lemma latin_keyword_rule (U : UnicodeData) (full_email keyword sign : str) :
  In (keyword, sign) latin_keywords ->
  str_in keyword (lower U full_email) = true ->
  exists rule, In (rule, sign) (warning_rules U) /\ rule full_email = true.
Proof.
  unfold latin_keywords, warning_rules. intros Hin Hk.
  repeat (destruct Hin as [E|Hin];
          [injection E as <- <-|]); try contradiction.
  - exists (rule_verify U). split; [now left|].
    unfold rule_verify. cbv zeta. rewrite Hk. reflexivity.
  - exists (rule_verify U). split; [now left|].
    unfold rule_verify. cbv zeta. rewrite Hk, orb_true_r. reflexivity.
  - exists (rule_urgency U). split; [right; now left|].
    unfold rule_urgency. cbv zeta. rewrite Hk. reflexivity.
  - exists (rule_urgency U). split; [right; now left|].
    unfold rule_urgency. cbv zeta. rewrite Hk, orb_true_r. reflexivity.
  - exists (rule_sensitive U). split; [do 3 right; now left|].
    unfold rule_sensitive. cbv zeta. rewrite Hk. reflexivity.
  - exists (rule_account U). split; [do 5 right; now left|].
    unfold rule_account. cbv zeta. rewrite Hk. reflexivity.
  - exists (rule_prize U). split; [do 6 right; now left|].
    unfold rule_prize. cbv zeta. rewrite Hk. reflexivity.
  - exists (rule_prize U). split; [do 6 right; now left|].
    unfold rule_prize. cbv zeta. rewrite Hk, orb_true_r. reflexivity.
Qed.


(* ================================================================= *)
(** ** Extending the text *)

Lemma prefixb_sigma_blind (k x : str) :
  no_sigma k = true -> prefixb k (map sigma_blind x) = prefixb k x.
Proof.
  revert x. induction k as [|a k IH]; intros x Hk; [reflexivity|].
  simpl in Hk. apply andb_true_iff in Hk. destruct Hk as [Ha Hk].
  destruct x as [|b x]; [reflexivity|]. simpl. rewrite (IH x Hk). f_equal.
  unfold sigma_blind, char_eqb.
  apply negb_true_iff, orb_false_iff in Ha. destruct Ha as [Ha1 Ha2].
  destruct (b =? small_final_sigma) eqn:Eb; [|reflexivity].
  apply N.eqb_eq in Eb. subst b. now rewrite Ha1, Ha2.
Qed.

Lemma str_in_sigma_blind (k x : str) :
  no_sigma k = true -> str_in k (map sigma_blind x) = str_in k x.
Proof.
  intros Hk. induction x as [|b x IH].
  - reflexivity.
  - change (map sigma_blind (b :: x)) with (sigma_blind b :: map sigma_blind x).
    cbn [str_in]. rewrite IH. f_equal.
    exact (prefixb_sigma_blind k (b :: x) Hk).
Qed.

Lemma handle_capital_sigma_blind (U : UnicodeData) (before after : str) :
  sigma_blind (handle_capital_sigma U before after) = small_sigma.
Proof.
  unfold handle_capital_sigma.
  destruct (skip_ignorable U before) as [c|]; [|reflexivity].
  destruct (is_cased U c); [|reflexivity].
  destruct (skip_ignorable U after) as [d|]; [|reflexivity].
  destruct (is_cased U d); reflexivity.
Qed.

(** Through [sigma_blind], lower-casing works character by character. *)
Lemma do_lower_blind (U : UnicodeData) (s before : str) :
  map sigma_blind (do_lower U before s) = flat_map (lower_blind U) s.
Proof.
  revert before. induction s as [|c s IH]; intros before; [reflexivity|].
  cbn [do_lower flat_map]. rewrite map_app, IH. f_equal.
  unfold lower_ucs4, lower_blind. destruct (c =? capital_sigma); [|reflexivity].
  cbn [map]. now rewrite handle_capital_sigma_blind.
Qed.

(** A phrase without sigmas that occurs in the lower-cased text still
    occurs after the text is extended. *)
Lemma str_in_lower_app (U : UnicodeData) (k t s : str) :
  no_sigma k = true ->
  str_in k (lower U t) = true -> str_in k (lower U (t ++ s)) = true.
Proof.
  intros Hk. unfold lower.
  rewrite <- (str_in_sigma_blind k (do_lower U [] t) Hk).
  rewrite <- (str_in_sigma_blind k (do_lower U [] (t ++ s)) Hk).
  rewrite !do_lower_blind, flat_map_app. apply str_in_app.
Qed.

Lemma count_in_monotone (keywords : list str) (x y : str) :
  (forall k, In k keywords -> str_in k x = true -> str_in k y = true) ->
  (count_in keywords x <= count_in keywords y)%nat.
Proof.
  induction keywords as [|k ks IH]; intros H; simpl; [lia|].
  assert (Hks : (count_in ks x <= count_in ks y)%nat)
    by (apply IH; intros k' Hin; apply H; now right).
  destruct (str_in k x) eqn:E.
  - rewrite (H k (or_introl eq_refl) E). lia.
  - destruct (str_in k y); lia.
Qed.

Lemma phishing_keywords_no_sigma (k : str) :
  In k phishing_keywords -> no_sigma k = true.
Proof.
  assert (H : forallb no_sigma phishing_keywords = true)
    by (vm_compute; reflexivity).
  rewrite forallb_forall in H. apply H.
Qed.

Lemma phishing_score_app (U : UnicodeData) (t s : str) :
  (phishing_score U t <= phishing_score U (t ++ s))%nat.
Proof.
  unfold phishing_score. apply count_in_monotone. intros k Hin.
  apply str_in_lower_app. now apply phishing_keywords_no_sigma.
Qed.

(** C9. Extending the text never lowers the count of the keyword
    heuristic, so a text judged phishing stays so when more text is
    appended to it; in particular when the body of a request is
    extended. *)
Theorem keyword_heuristic_monotone (U : UnicodeData) (t s : str) :
  (phishing_score U t <= phishing_score U (t ++ s))%nat
  /\ (is_phishing (keyword_analysis U t) = true ->
      is_phishing (keyword_analysis U (t ++ s)) = true)
  /\ (forall subject body,
        t = subject ++ utf8 " " ++ body ->
        (phishing_score U (subject ++ utf8 " " ++ body)
         <= phishing_score U (subject ++ utf8 " " ++ (body ++ s)))%nat).
Proof.
  pose proof (phishing_score_app U t s) as Hle.
  split; [exact Hle|]. split.
  - unfold keyword_analysis. cbn [is_phishing].
    rewrite !Nat.leb_le. lia.
  - intros subject body ->.
    now rewrite <- !app_assoc in Hle.
Qed.

(* ================================================================= *)
(** ** The model branch *)

Lemma SFltb_irrefl (a : spec_float) : SFltb a a = false.
Proof.
  unfold SFltb. destruct a as [s|s| |s m e]; simpl; try reflexivity.
  - destruct s; reflexivity.
  - destruct s; rewrite Z.compare_refl, Pos.compare_cont_refl; reflexivity.
Qed.

Lemma SFltb_finite (s1 s2 : bool) (m1 m2 : positive) (e1 e2 : Z) :
  SFltb (S754_finite s1 m1 e1) (S754_finite s2 m2 e2) = true <->
  match s1, s2 with
  | true, false => True
  | false, true => False
  | false, false => (e1 < e2 \/ (e1 = e2 /\ (m1 < m2)%positive))%Z
  | true, true => (e2 < e1 \/ (e1 = e2 /\ (m2 < m1)%positive))%Z
  end.
Proof.
  unfold SFltb. simpl.
  change (Pos.compare_cont Eq m1 m2) with (Pos.compare m1 m2).
  destruct s1, s2; try (split; [tauto | discriminate]);
    try (split; [discriminate | tauto]);
    destruct (Z.compare_spec e1 e2) as [He|He|He];
    destruct (Pos.compare_spec m1 m2) as [Hm|Hm|Hm]; simpl;
    split; try discriminate; try reflexivity; try lia; intros _; lia.
Qed.

Lemma SFltb_trans (a b c : spec_float) :
  SFltb a b = true -> SFltb b c = true -> SFltb a c = true.
Proof.
  destruct a as [sa|sa| |sa ma ea], b as [sb|sb| |sb mb eb],
    c as [sc|sc| |sc mc ec];
    try (unfold SFltb; simpl; repeat match goal with s : bool |- _ => destruct s end;
         simpl; congruence).
  rewrite !SFltb_finite. destruct sa, sb, sc; try tauto; lia.
Qed.

Lemma ltb_irrefl (x : float) : (x <? x)%float = false.
Proof. rewrite ltb_spec. apply SFltb_irrefl. Qed.

Lemma ltb_trans (x y z : float) :
  (x <? y)%float = true -> (y <? z)%float = true -> (x <? z)%float = true.
Proof. rewrite !ltb_spec. apply SFltb_trans. Qed.

Lemma max_from_In (l : list float) (cur : float) :
  In (max_from cur l) (cur :: l).
Proof.
  revert cur. induction l as [|y l IH]; intros cur; simpl; [now left|].
  destruct (cur <? y)%float.
  - right. apply IH.
  - destruct (IH cur) as [H|H]; [now left | right; now right].
Qed.

(** The loop of [max] keeps its current item or moves to a greater one. *)
Lemma max_from_start (l : list float) (cur : float) :
  max_from cur l = cur \/ (cur <? max_from cur l)%float = true.
Proof.
  revert cur. induction l as [|y l IH]; intros cur; simpl; [now left|].
  destruct (cur <? y)%float eqn:E; [|apply IH].
  right. destruct (IH y) as [-> | H]; [exact E|].
  eapply ltb_trans; eassumption.
Qed.

Lemma max_from_not_below_start (l : list float) (cur : float) :
  (max_from cur l <? cur)%float = false.
Proof.
  destruct (max_from_start l cur) as [-> | H]; [apply ltb_irrefl|].
  destruct (max_from cur l <? cur)%float eqn:E; [|reflexivity].
  pose proof (ltb_trans _ _ _ H E) as Hcc.
  rewrite ltb_irrefl in Hcc. discriminate.
Qed.

(** No item compares greater than what the loop of [max] returns. *)
Lemma max_from_upper_bound (l : list float) (cur x : float) :
  In x (cur :: l) -> (max_from cur l <? x)%float = false.
Proof.
  revert cur. induction l as [|y l IH]; intros cur.
  - intros [<-|[]]. apply ltb_irrefl.
  - intros [<-|[<-|Hx]].
    + apply max_from_not_below_start.
    + simpl. destruct (cur <? y)%float eqn:E.
      * apply max_from_not_below_start.
      * destruct (max_from_start l cur) as [-> | H]; [exact E|].
        destruct (max_from cur l <? y)%float eqn:E'; [|reflexivity].
        pose proof (ltb_trans _ _ _ H E') as Hcx. congruence.
    + simpl. destruct (cur <? y)%float; apply IH; now right.
Qed.

Lemma py_max_spec (l : list float) (score : float) :
  py_max l = Ret score ->
  In score l /\ (forall x, In x l -> (score <? x)%float = false).
Proof.
  destruct l as [|y l]; simpl; intros H; [discriminate|].
  inversion H; subst score. split.
  - apply max_from_In.
  - intros x. apply max_from_upper_bound.
Qed.

(** C4. When the model branch returns, the answer is its result; the
    score behind it is one of the per-class probabilities of the text and
    none of them is greater (whatever class it belongs to); the
    confidence follows the thresholds 0.9, 0.75 and 0.6 in that order;
    the reason and [ml_confidence] carry the formatted score; the warning
    signs are those of the seven rules; and [model_used] names the
    model. *)
Theorem model_path_contract (U : UnicodeData) (format_percent : float -> str)
        (m : Model) (data : option dict) (result : AnalysisResult) :
  field data "subject" <> [] \/ field data "body" <> [] ->
  ml_analysis U format_percent m (full_email_of data)
    (preprocess_text U (full_email_of data)) = Ret result ->
  analyze_email U format_percent (Some m) data = Ok result
  /\ exists (prediction : Z) (proba : list float) (score : float),
       bind (predict m [preprocess_text U (full_email_of data)]) index0
         = Ret prediction
       /\ bind (predict_proba m [preprocess_text U (full_email_of data)]) index0
         = Ret proba
       /\ In score proba
       /\ (forall x, In x proba -> (score <? x)%float = false)
       /\ is_phishing result = (prediction =? 1)%Z
       /\ confidence result =
            (if (0.9 <=? score)%float then very_high
             else if (0.75 <=? score)%float then high
             else if (0.6 <=? score)%float then medium
             else low)
       /\ reason result =
            (if (prediction =? 1)%Z then reason_ml_phishing else reason_ml_safe)
            ++ format_percent score
       /\ ml_confidence result = Some (format_percent score)
       /\ warning_signs result = extract_warning_signs U (full_email_of data)
       /\ model_used result = ml_model_name.
Proof.
  intros Hne Hml. split.
  - rewrite analyze_email_nonempty by assumption. now rewrite Hml.
  - unfold ml_analysis in Hml.
    destruct (predict m [preprocess_text U (full_email_of data)])
      as [[|prediction ps]|e]; try discriminate.
    cbn [bind index0] in Hml.
    destruct (predict_proba m [preprocess_text U (full_email_of data)])
      as [[|proba qs]|e]; try discriminate.
    cbn [bind index0] in Hml.
    destruct (py_max proba) as [score|e] eqn:Hmax; try discriminate.
    cbn [bind] in Hml. injection Hml as <-.
    destruct (py_max_spec proba score Hmax) as [Hin Hub].
    exists prediction, proba, score. cbn [bind index0].
    repeat split; try assumption.
    cbn [reason]. destruct (prediction =? 1)%Z; reflexivity.
Qed.

Lemma model_path_contract_witness :
  exists result,
    ml_analysis ascii_only percent_stub (constant_model 1 [0.05; 0.95]%float)
      (full_email_of (request "Urgent" "verify your account"))
      (preprocess_text ascii_only
         (full_email_of (request "Urgent" "verify your account")))
    = Ret result
    /\ analyze_email ascii_only percent_stub
         (Some (constant_model 1 [0.05; 0.95]%float))
         (request "Urgent" "verify your account") = Ok result
    /\ confidence result = very_high
    /\ model_used result = ml_model_name.
Proof.
  eexists. split; [vm_compute; reflexivity|].
  destruct (model_path_contract ascii_only percent_stub
              (constant_model 1 [0.05; 0.95]%float)
              (request "Urgent" "verify your account") _
              ltac:(left; vm_compute; discriminate)
              ltac:(vm_compute; reflexivity)) as [H _].
  split; [exact H|]. split; vm_compute; reflexivity.
Defined.

(* ================================================================= *)
(** ** [re.sub] with the empty replacement *)

Lemma match_len_sound (r : regex) (s : str) (n : nat) :
  match_len r s = Some n ->
  exists w rest, s = w ++ rest /\ matches r w /\ n = length w /\ w <> [].
Proof.
  unfold match_len. intros H. apply rmatch_sound in H.
  destruct H as (w & rest & -> & Hm & Hk).
  destruct (Nat.ltb (length rest) (length (w ++ rest))) eqn:E; [|discriminate].
  apply Nat.ltb_lt in E. rewrite length_app in *.
  exists w, rest. repeat split; auto.
  - inversion Hk. lia.
  - intros ->. simpl in E. lia.
Qed.

(** A text in which no non-empty word of the pattern starts anywhere is
    left as it is. *)
Lemma sub_from_fixed (r : regex) (s : str) :
  (forall pre w rest, s = pre ++ w ++ rest -> matches r w -> w = []) ->
  sub_from r 0 s = s.
Proof.
  induction s as [|c t IH]; intros H; [reflexivity|].
  cbn [sub_from].
  destruct (match_len r (c :: t)) as [[|n]|] eqn:E.
  - f_equal. apply IH. intros pre w rest -> Hm.
    apply (H (c :: pre) w rest); auto.
  - apply match_len_sound in E. destruct E as (w & rest & E & Hm & _ & Hne).
    exfalso. apply Hne. apply (H [] w rest); auto.
  - f_equal. apply IH. intros pre w rest -> Hm.
    apply (H (c :: pre) w rest); auto.
Qed.

Lemma re_sub_empty_no_match (r : regex) (s : str) :
  re_search r s = false -> re_sub_empty r s = s.
Proof.
  intros H. apply sub_from_fixed. intros pre w rest -> Hm.
  assert (Ht : re_search r (pre ++ w ++ rest) = true)
    by (apply re_search_spec; now exists pre, w, rest).
  congruence.
Qed.

(** A pattern all of whose words contain [c] leaves a text without [c]
    as it is. *)
Lemma re_sub_empty_needs_char (r : regex) (c : char) (s : str) :
  (forall w, matches r w -> In c w) -> ~ In c s -> re_sub_empty r s = s.
Proof.
  intros Hr Hs. apply sub_from_fixed. intros pre w rest -> Hm.
  exfalso. apply Hs. apply in_or_app. right. apply in_or_app. left.
  now apply Hr.
Qed.

Lemma sub_from_Forall (P : char -> Prop) (r : regex) (s : str) (skip : nat) :
  Forall P s -> Forall P (sub_from r skip s).
Proof.
  intros H. revert skip. induction H as [|c t Hc Ht IH]; intros skip;
    [constructor|].
  cbn [sub_from]. destruct skip as [|n]; [|apply IH].
  destruct (match_len r (c :: t)) as [[|n]|]; auto.
Qed.

(** Deleting the matches of a one-character class is filtering. *)
Lemma re_sub_empty_class (p : char -> bool) (s : str) :
  re_sub_empty (Class p) s = filter (fun c => negb (p c)) s.
Proof.
  unfold re_sub_empty. induction s as [|c t IH]; [reflexivity|].
  cbn [sub_from filter]. unfold match_len. cbn [rmatch].
  destruct (p c); cbn [negb]; [|now rewrite IH].
  assert (E : Nat.ltb (length t) (length (c :: t)) = true)
    by (apply Nat.ltb_lt; cbn [length]; lia).
  rewrite E.
  replace (length (c :: t) - length t)%nat with 1%nat by (cbn [length]; lia).
  exact IH.
Qed.

Lemma matches_re_email_at (w : str) : matches re_email w -> In 64 w.
Proof.
  unfold re_email. intros H.
  inversion H as [| | |r1 r2 w1 w23 H1 H23| | | | | |]; subst.
  inversion H23 as [| | |r1 r2 w2 w3 H2 H3| | | | | |]; subst.
  inversion H2; subst.
  apply in_or_app. right. now left.
Qed.

Lemma matches_re_tag_lt (w : str) : matches re_tag w -> In 60 w.
Proof.
  unfold re_tag. intros H.
  inversion H as [| | |r1 r2 w1 w23 H1 H23| | | | | |]; subst.
  inversion H1; subst. now left.
Qed.

(** X13. The URL pattern of the normaliser finds a match exactly in a
    text where [http] or [www] is directly followed by a character that
    is not white space; the [https] alternative adds nothing to that. *)
Lemma re_search_re_url (t : str) :
  re_search re_url t = true <->
  exists pre c post,
    is_space c = false
    /\ (t = pre ++ utf8 "http" ++ c :: post
        \/ t = pre ++ utf8 "www" ++ c :: post).
Proof.
  rewrite re_search_spec. unfold re_url. split.
  - intros (pre & w & post & -> & Hm).
    assert (Hseq : forall k u, matches (Seq (lit k) (Plus non_space)) u ->
              exists c u', u = k ++ c :: u' /\ is_space c = false).
    { intros k u Hu.
      inversion Hu as [| | |r1 r2 w1 w2 H1 H2| | | | | |]; subst.
      apply matches_lit in H1. subst.
      inversion H2 as [| | | | | | | |p c u' Hc Hu'|]; subst.
      exists c, u'. split; [reflexivity|].
      unfold non_space in Hc. now apply negb_true_iff in Hc. }
    inversion Hm as [| | | |r1 r2 u Hu|r1 r2 u Hu| | | |]; subst.
    + destruct (Hseq (utf8 "http") _ Hu) as (c & u' & -> & Hc).
      exists pre, c, (u' ++ post). split; [exact Hc|]. left.
      now rewrite <- !app_assoc.
    + inversion Hu as [| | | |r1 r2 u0 Hu0|r1 r2 u0 Hu0| | | |]; subst.
      * destruct (Hseq (utf8 "www") _ Hu0) as (c & u' & -> & Hc).
        exists pre, c, (u' ++ post). split; [exact Hc|]. right.
        now rewrite <- !app_assoc.
      * destruct (Hseq (utf8 "https") _ Hu0) as (c & u' & -> & Hc).
        exists pre, 115, (c :: u' ++ post). split; [reflexivity|]. left.
        change (utf8 "https") with (utf8 "http" ++ [115]).
        now rewrite <- !app_assoc.
  - intros (pre & c & post & Hc & [-> | ->]).
    + exists pre, (utf8 "http" ++ [c]), post. split.
      * now rewrite <- !app_assoc.
      * apply M_Alt_l. constructor; [now apply matches_lit|].
        constructor; [|constructor]. unfold non_space. now rewrite Hc.
    + exists pre, (utf8 "www" ++ [c]), post. split.
      * now rewrite <- !app_assoc.
      * apply M_Alt_r, M_Alt_l. constructor; [now apply matches_lit|].
        constructor; [|constructor]. unfold non_space. now rewrite Hc.
Qed.

(* ================================================================= *)
(** ** [split] and [join] *)

Lemma utf8_space : utf8 " " = [32].
Proof. reflexivity. Qed.

Lemma is_ascii_lower_not_space (c : char) :
  is_ascii_lower c = true -> is_space c = false.
Proof.
  unfold is_ascii_lower, is_space. intros H.
  apply andb_true_iff in H. destruct H as [H1 H2].
  apply N.leb_le in H1, H2.
  repeat match goal with
         | |- context [?a <=? ?b] =>
           destruct (N.leb_spec a b); try lia
         | |- context [?a =? ?b] =>
           destruct (N.eqb_spec a b); try lia
         end; reflexivity.
Qed.

Lemma split_from_app (w acc rest : str) :
  Forall (fun c => is_space c = false) w ->
  split_from acc (w ++ rest) = split_from (acc ++ w) rest.
Proof.
  intros Hw. revert acc. induction Hw as [|c w Hc Hw IH]; intros acc.
  - now rewrite app_nil_r.
  - cbn [app split_from]. rewrite Hc, IH, <- app_assoc. reflexivity.
Qed.

Lemma word_no_space (w : str) :
  word w -> Forall (fun c => is_space c = false) w.
Proof.
  intros [_ Hw]. eapply Forall_impl; [|exact Hw].
  intros c. apply is_ascii_lower_not_space.
Qed.

(** Splitting a single-spaced text gives back its words. *)
Lemma split_join (ws : list str) :
  Forall word ws -> split (join [32] ws) = ws.
Proof.
  unfold split. induction 1 as [|w ws Hw Hws IH]; [reflexivity|].
  assert (Hne : w <> []) by apply Hw.
  destruct ws as [|w' ws'].
  - cbn [join]. rewrite <- (app_nil_r w) at 1.
    rewrite split_from_app by now apply word_no_space.
    cbn [app split_from]. destruct w; [congruence | reflexivity].
  - change (join [32] (w :: w' :: ws'))
      with (w ++ 32 :: join [32] (w' :: ws')).
    rewrite split_from_app by now apply word_no_space.
    cbn [app split_from].
    change (is_space 32) with true. cbv iota.
    rewrite IH. destruct w; [congruence | reflexivity].
Qed.

(** The words that [split] finds in a text of lower-case letters and
    white space. *)
Lemma split_from_words (s acc : str) :
  Forall (fun c => is_ascii_lower c = true) acc ->
  Forall (fun c => is_ascii_lower c = true \/ is_space c = true) s ->
  Forall word (split_from acc s).
Proof.
  intros Hacc Hs. revert acc Hacc.
  induction Hs as [|c s Hc Hs IH]; intros acc Hacc; cbn [split_from].
  - destruct acc as [|a acc]; constructor; [|constructor].
    split; [discriminate | assumption].
  - destruct (is_space c) eqn:E.
    + destruct acc as [|a acc]; [now apply IH|].
      constructor; [split; [discriminate | assumption]|].
      apply IH. constructor.
    + apply IH. apply Forall_app. split; [assumption|].
      constructor; [|constructor]. destruct Hc as [Hc|Hc]; congruence.
Qed.

Lemma join_chars (ws : list str) :
  Forall word ws ->
  Forall (fun c => is_ascii_lower c = true \/ c = 32) (join [32] ws).
Proof.
  induction 1 as [|w ws Hw Hws IH]; [constructor|].
  assert (Hl : Forall (fun c => is_ascii_lower c = true \/ c = 32) w).
  { destruct Hw as [_ Hw]. eapply Forall_impl; [|exact Hw]. tauto. }
  destruct ws as [|w' ws']; [exact Hl|].
  change (join [32] (w :: w' :: ws'))
    with (w ++ 32 :: join [32] (w' :: ws')).
  apply Forall_app. split; [exact Hl|]. constructor; [now right | exact IH].
Qed.

(* ================================================================= *)
(** ** [str.lower] on ASCII *)

Lemma ascii_lower_not_upper (c : char) :
  is_ascii_upper (ascii_lower c) = false.
Proof.
  unfold ascii_lower. destruct (is_ascii_upper c) eqn:E; [|exact E].
  unfold is_ascii_upper in *. apply andb_true_iff in E.
  destruct E as [E1 E2]. apply N.leb_le in E1, E2.
  apply andb_false_iff. right. apply N.leb_gt. lia.
Qed.

(** Under the database fact, lower-cased text has no ASCII capital. *)
Lemma do_lower_no_capital (U : UnicodeData) (s before : str) :
  lower_yields_no_ascii_capital U ->
  Forall (fun c => is_ascii_upper c = false) (do_lower U before s).
Proof.
  intros HU. revert before. induction s as [|c s IH]; intros before;
    cbn [do_lower]; [constructor|].
  apply Forall_app. split; [|apply IH].
  unfold lower_ucs4. destruct (c =? capital_sigma).
  - constructor; [|constructor]. unfold handle_capital_sigma.
    destruct (skip_ignorable U before) as [x|]; [|reflexivity].
    destruct (is_cased U x); [|reflexivity].
    destruct (skip_ignorable U s) as [y|]; [|reflexivity].
    destruct (is_cased U y); reflexivity.
  - unfold lower_char. destruct (c <? 128) eqn:E.
    + constructor; [apply ascii_lower_not_upper | constructor].
    + apply HU. now apply N.ltb_ge.
Qed.

(** Lower-case letters and spaces are their own lower case. *)
Lemma do_lower_fixed (U : UnicodeData) (s before : str) :
  Forall (fun c => is_ascii_lower c = true \/ c = 32) s ->
  do_lower U before s = s.
Proof.
  intros H. revert before. induction H as [|c s Hc Hs IH]; intros before;
    cbn [do_lower]; [reflexivity|].
  rewrite IH.
  assert (Hr : c < 128 /\ c <> capital_sigma /\ is_ascii_upper c = false).
  { unfold capital_sigma, is_ascii_upper. destruct Hc as [Hc| ->].
    - unfold is_ascii_lower in Hc. apply andb_true_iff in Hc.
      destruct Hc as [H1 H2]. apply N.leb_le in H1, H2.
      repeat split; try lia. apply andb_false_iff. right.
      apply N.leb_gt. lia.
    - repeat split; try lia; try reflexivity. }
  destruct Hr as (H1 & H2 & H3).
  unfold lower_ucs4, lower_char, ascii_lower.
  apply N.eqb_neq in H2. apply N.ltb_lt in H1. now rewrite H2, H1, H3.
Qed.

(* ================================================================= *)
(** ** The text normaliser applied twice *)

Lemma filter_all {X : Type} (keep : X -> bool) (xs : list X) :
  Forall (fun x => keep x = true) xs -> filter keep xs = xs.
Proof.
  induction 1 as [|x xs Hx Hxs IH]; simpl; [reflexivity|].
  now rewrite Hx, IH.
Qed.

(** The normaliser returns lower-case words separated by single
    spaces. *)
Lemma preprocess_text_normalized (U : UnicodeData) (s : str) :
  lower_yields_no_ascii_capital U -> normalized (preprocess_text U s).
Proof.
  intros HU. unfold preprocess_text. cbv zeta.
  set (u := re_sub_empty re_tag
              (re_sub_empty re_email (re_sub_empty re_url (lower U s)))).
  assert (Hu : Forall (fun c => is_ascii_upper c = false) u).
  { unfold u, re_sub_empty. do 3 apply sub_from_Forall.
    now apply do_lower_no_capital. }
  exists (split (re_sub_empty re_non_letter u)). split; [|reflexivity].
  unfold split. apply split_from_words; [constructor|].
  unfold re_non_letter. rewrite re_sub_empty_class.
  apply Forall_forall. intros c Hc. apply filter_In in Hc.
  destruct Hc as [Hin Hc]. rewrite Forall_forall in Hu.
  specialize (Hu c Hin). unfold not_letter_or_space in Hc.
  rewrite negb_involutive, Hu, orb_false_r in Hc.
  now apply orb_true_iff in Hc.
Qed.

(** On normalised text without a match of the URL pattern the
    normaliser changes nothing. *)
Lemma preprocess_text_fixed (U : UnicodeData) (t : str) :
  normalized t -> re_search re_url t = false -> preprocess_text U t = t.
Proof.
  intros (ws & Hws & ->) Hurl. rewrite utf8_space in *.
  pose proof (join_chars ws Hws) as Hchars.
  assert (Hno : forall c, is_ascii_lower c = false -> c <> 32 ->
                  ~ In c (join [32] ws)).
  { intros c Hc Hc' Hin. rewrite Forall_forall in Hchars.
    destruct (Hchars c Hin); congruence. }
  unfold preprocess_text. cbv zeta. unfold lower.
  rewrite (do_lower_fixed U _ [] Hchars).
  rewrite (re_sub_empty_no_match _ _ Hurl).
  rewrite (re_sub_empty_needs_char re_email 64 _ matches_re_email_at)
    by (apply Hno; [reflexivity | discriminate]).
  rewrite (re_sub_empty_needs_char re_tag 60 _ matches_re_tag_lt)
    by (apply Hno; [reflexivity | discriminate]).
  unfold re_non_letter. rewrite re_sub_empty_class, filter_all.
  - rewrite utf8_space. now rewrite split_join.
  - eapply Forall_impl; [|exact Hchars]. intros c [Hc | ->]; [|reflexivity].
    unfold not_letter_or_space. now rewrite Hc.
Qed.

(** C1, as amended.  Normalising the output of the normaliser returns it
    unchanged whenever that output contains no match of the URL pattern,
    that is, no [http] or [www] directly followed by a character that is
    not white space (given that lower-casing yields no ASCII capital from
    a non-ASCII character, as in the Unicode database). *)
Theorem preprocess_text_idempotent_without_url (U : UnicodeData) (s : str) :
  lower_yields_no_ascii_capital U ->
  re_search re_url (preprocess_text U s) = false ->
  preprocess_text U (preprocess_text U s) = preprocess_text U s.
Proof.
  intros HU Hurl. apply preprocess_text_fixed; [|exact Hurl].
  now apply preprocess_text_normalized.
Qed.

Lemma preprocess_text_idempotent_without_url_witness :
  preprocess_text ascii_only
    (preprocess_text ascii_only (utf8 "Verify123 now!! <b>a</b> x@y.z"))
  = preprocess_text ascii_only (utf8 "Verify123 now!! <b>a</b> x@y.z").
Proof.
  apply (preprocess_text_idempotent_without_url ascii_only
           (utf8 "Verify123 now!! <b>a</b> x@y.z")).
  - intros c Hc. constructor; [|constructor].
    unfold is_ascii_upper. apply andb_false_iff. right.
    apply N.leb_gt. lia.
  - vm_compute. reflexivity.
Defined.

(** C1, as stated, fails: removing the digit of [ht1tpfoo] leaves
    [httpfoo], which a second pass deletes as a URL. *)
Lemma preprocess_text_not_idempotent :
  (forall U : UnicodeData,
      preprocess_text U (utf8 "ht1tpfoo") = utf8 "httpfoo"
      /\ preprocess_text U (preprocess_text U (utf8 "ht1tpfoo")) = [])
  /\ ~ (forall (U : UnicodeData) (s : str),
          preprocess_text U (preprocess_text U s) = preprocess_text U s).
Proof.
  assert (H : forall U : UnicodeData,
             preprocess_text U (utf8 "ht1tpfoo") = utf8 "httpfoo"
             /\ preprocess_text U (preprocess_text U (utf8 "ht1tpfoo")) = [])
    by (intros U; split; vm_compute; reflexivity).
  split; [exact H|]. intros Hidem.
  destruct (H ascii_only) as [H1 H2].
  rewrite (Hidem ascii_only (utf8 "ht1tpfoo")), H1 in H2.
  vm_compute in H2. discriminate.
Qed.

(* ================================================================= *)
(** ** End-to-end runs *)

(** Nothing in the body of [analyze_email] raises past the inner
    handler. *)
Lemma analyze_email_no_internal_error (U : UnicodeData)
      (format_percent : float -> str) (model : option Model)
      (data : option dict) (e : exn) :
  analyze_email U format_percent model data <> InternalError e.
Proof.
  unfold analyze_email, analyze_body.
  destruct data as [[|kv d]|]; try discriminate.
  destruct (negb (truthy (dict_get (kv :: d) (utf8 "subject") [])) &&
            negb (truthy (dict_get (kv :: d) (utf8 "body") [])));
    try discriminate.
  destruct model as [m|]; try discriminate.
  match goal with
  | |- context [ml_analysis ?a ?b ?c ?d ?e] =>
    destruct (ml_analysis a b c d e); discriminate
  end.
Qed.

Example empty_request_is_rejected :
  analyze_email ascii_only percent_stub None (request "" "")
  = BadRequest err_empty_input.
Proof. vm_compute. reflexivity. Qed.

Example fallback_three_phrases :
  exists result,
    analyze_email ascii_only percent_stub None
      (request "Urgent action" "Verify account: click here immediately")
    = Ok result
    /\ is_phishing result = true
    /\ confidence result = high
    /\ warning_signs result = [simple_keyword_analysis]
    /\ model_used result = keyword_fallback_name.
Proof. eexists. repeat split; vm_compute; reflexivity. Qed.

Example model_path_very_high :
  exists result,
    analyze_email ascii_only percent_stub
      (Some (constant_model 1 [0.05; 0.95]%float))
      (request "Prize" "You are a WINNER, see HTTPS://X.Y")
    = Ok result
    /\ is_phishing result = true
    /\ confidence result = very_high
    /\ warning_signs result = [sign_prize]
    /\ model_used result = ml_model_name.
Proof. eexists. repeat split; vm_compute; reflexivity. Qed.

(* ================================================================= *)
(** ** Further properties: the request check *)




Lemma dict_get_app_empty (d : dict) (key key' : str) :
  (forall v, ~ In (key, v) d) ->
  dict_get (d ++ [(key, [])]) key' [] = dict_get d key' [].
Proof.
  intros Habs. induction d as [|[k v] d IH]; simpl.
  - destruct (str_eqb key key'); reflexivity.
  - destruct (str_eqb k key'); [reflexivity|].
    apply IH. intros w Hin. apply (Habs w). now right.
Qed.

(** X2. A missing field reads as an empty one: adding a field that a
    non-empty request object lacks, with the empty string as its value,
    does not change the answer. *)
Theorem missing_field_reads_as_empty (U : UnicodeData)
        (format_percent : float -> str) (model : option Model)
        (d : dict) (key : str) :
  d <> [] -> (forall v, ~ In (key, v) d) ->
  analyze_email U format_percent model (Some (d ++ [(key, [])]))
  = analyze_email U format_percent model (Some d).
Proof.
  intros Hd Habs. unfold analyze_email, analyze_body.
  destruct d as [|kv d]; [congruence|].
  change ((kv :: d) ++ [(key, [])]) with (kv :: (d ++ [(key, [])])).
  cbv beta iota.
  change (kv :: (d ++ [(key, [])])) with ((kv :: d) ++ [(key, [])]).
  now rewrite !(dict_get_app_empty (kv :: d) key _ Habs).
Qed.

Lemma missing_field_reads_as_empty_witness :
  analyze_email ascii_only percent_stub None
    (Some ([(utf8 "subject", utf8 "urgent action")] ++ [(utf8 "body", [])]))
  = analyze_email ascii_only percent_stub None
      (Some [(utf8 "subject", utf8 "urgent action")]).
Proof.
  apply (missing_field_reads_as_empty ascii_only percent_stub None
           [(utf8 "subject", utf8 "urgent action")] (utf8 "body")).
  - discriminate.
  - intros v [H|[]]. vm_compute in H. discriminate.
Defined.

(* ================================================================= *)
(** ** Further properties: the two-tier decision *)

(** X4. A classifier that returns without raising but gives an empty
    batch of labels, an empty batch of probability rows or an empty row
    is treated like one that raised: indexing or [max] fails inside the
    inner handler and the answer is that of the keyword heuristic. *)
Theorem malformed_model_output_falls_back (U : UnicodeData)
        (format_percent : float -> str) (m : Model) (data : option dict) :
  field data "subject" <> [] \/ field data "body" <> [] ->
  predict m [preprocess_text U (full_email_of data)] = Ret []
  \/ predict_proba m [preprocess_text U (full_email_of data)] = Ret []
  \/ (exists rows,
        predict_proba m [preprocess_text U (full_email_of data)]
        = Ret ([] :: rows)) ->
  analyze_email U format_percent (Some m) data
  = Ok (keyword_analysis U (full_email_of data)).
Proof.
  intros Hne Hbad. rewrite analyze_email_nonempty by assumption.
  assert (Hr : exists e,
             ml_analysis U format_percent m (full_email_of data)
               (preprocess_text U (full_email_of data)) = Raise e).
  { unfold ml_analysis. destruct Hbad as [H | [H | [rows H]]].
    - rewrite H. cbn [bind index0]. eauto.
    - destruct (predict m [preprocess_text U (full_email_of data)])
        as [[|p ps]|e]; cbn [bind index0]; eauto.
      rewrite H. cbn [bind index0]. eauto.
    - destruct (predict m [preprocess_text U (full_email_of data)])
        as [[|p ps]|e]; cbn [bind index0]; eauto.
      rewrite H. cbn [bind index0 py_max]. eauto. }
  destruct Hr as [e ->]. reflexivity.
Qed.

Lemma malformed_model_output_falls_back_witness :
  analyze_email ascii_only percent_stub (Some (constant_model 1 []))
    (request "Urgent action" "verify account")
  = Ok (keyword_analysis ascii_only
          (full_email_of (request "Urgent action" "verify account"))).
Proof.
  apply (malformed_model_output_falls_back ascii_only percent_stub
           (constant_model 1 []) (request "Urgent action" "verify account")).
  - left. vm_compute. discriminate.
  - right. right. exists []. reflexivity.
Defined.

(** The model branch reads [full_email] for the warning signs only. *)
Lemma ml_analysis_same_processed (U : UnicodeData)
      (format_percent : float -> str) (m : Model) (full1 full2 processed : str) :
  match ml_analysis U format_percent m full1 processed,
        ml_analysis U format_percent m full2 processed with
  | Ret r1, Ret r2 =>
    is_phishing r1 = is_phishing r2 /\ confidence r1 = confidence r2
    /\ reason r1 = reason r2 /\ ml_confidence r1 = ml_confidence r2
    /\ model_used r1 = ml_model_name /\ model_used r2 = ml_model_name
  | Raise e1, Raise e2 => e1 = e2
  | _, _ => False
  end.
Proof.
  unfold ml_analysis.
  destruct (predict m [processed]) as [[|p ps]|e]; cbn [bind index0];
    try reflexivity.
  destruct (predict_proba m [processed]) as [[|q qs]|e]; cbn [bind index0];
    try reflexivity.
  destruct (py_max q) as [score|e]; cbn [bind]; try reflexivity.
  cbn [is_phishing confidence reason ml_confidence model_used].
  repeat split.
Qed.

(** X5. The verdict of the model tier depends on the request only
    through its normalised text: two non-empty requests with the same
    normalised text are both answered by the model, with the same
    verdict, confidence, reason and score, or are both answered by the
    keyword heuristic. *)
Theorem model_verdict_depends_on_normalized_text (U : UnicodeData)
        (format_percent : float -> str) (m : Model)
        (data1 data2 : option dict) :
  field data1 "subject" <> [] \/ field data1 "body" <> [] ->
  field data2 "subject" <> [] \/ field data2 "body" <> [] ->
  preprocess_text U (full_email_of data1)
  = preprocess_text U (full_email_of data2) ->
  (exists r1 r2,
      analyze_email U format_percent (Some m) data1 = Ok r1
      /\ analyze_email U format_percent (Some m) data2 = Ok r2
      /\ model_used r1 = ml_model_name /\ model_used r2 = ml_model_name
      /\ is_phishing r1 = is_phishing r2 /\ confidence r1 = confidence r2
      /\ reason r1 = reason r2 /\ ml_confidence r1 = ml_confidence r2)
  \/ (analyze_email U format_percent (Some m) data1
      = Ok (keyword_analysis U (full_email_of data1))
      /\ analyze_email U format_percent (Some m) data2
         = Ok (keyword_analysis U (full_email_of data2))).
Proof.
  intros H1 H2 Hp. rewrite !analyze_email_nonempty by assumption.
  rewrite Hp.
  pose proof (ml_analysis_same_processed U format_percent m
                (full_email_of data1) (full_email_of data2)
                (preprocess_text U (full_email_of data2))) as H.
  destruct (ml_analysis U format_percent m (full_email_of data1)
              (preprocess_text U (full_email_of data2))) as [r1|e1];
    destruct (ml_analysis U format_percent m (full_email_of data2)
                (preprocess_text U (full_email_of data2))) as [r2|e2];
    try contradiction.
  - left. exists r1, r2. tauto.
  - right. split; reflexivity.
Qed.

Lemma model_verdict_depends_on_normalized_text_witness :
  (exists r1 r2,
      analyze_email ascii_only percent_stub
        (Some (constant_model 1 [0.2; 0.8]%float))
        (request "VERIFY!!" "your account 123") = Ok r1
      /\ analyze_email ascii_only percent_stub
           (Some (constant_model 1 [0.2; 0.8]%float))
           (request "verify" "your <b>account</b>") = Ok r2
      /\ model_used r1 = ml_model_name /\ model_used r2 = ml_model_name
      /\ is_phishing r1 = is_phishing r2 /\ confidence r1 = confidence r2
      /\ reason r1 = reason r2 /\ ml_confidence r1 = ml_confidence r2)
  \/ (analyze_email ascii_only percent_stub
        (Some (constant_model 1 [0.2; 0.8]%float))
        (request "VERIFY!!" "your account 123")
      = Ok (keyword_analysis ascii_only
              (full_email_of (request "VERIFY!!" "your account 123")))
      /\ analyze_email ascii_only percent_stub
           (Some (constant_model 1 [0.2; 0.8]%float))
           (request "verify" "your <b>account</b>")
         = Ok (keyword_analysis ascii_only
                 (full_email_of (request "verify" "your <b>account</b>")))).
Proof.
  apply (model_verdict_depends_on_normalized_text ascii_only percent_stub
           (constant_model 1 [0.2; 0.8]%float)
           (request "VERIFY!!" "your account 123")
           (request "verify" "your <b>account</b>")).
  - left. vm_compute. discriminate.
  - left. vm_compute. discriminate.
  - vm_compute. reflexivity.
Defined.

(** X6. Within a keyword-heuristic answer the fields agree: a phishing
    verdict comes with medium or high confidence and with the reason
    that reports the count; a non-phishing verdict comes with low or
    medium confidence and the fixed "no indicators" reason; high
    confidence implies the phishing verdict and low confidence excludes
    it. *)
Theorem keyword_analysis_consistent (U : UnicodeData) (full_email : str) :
  let result := keyword_analysis U full_email in
  (is_phishing result = true ->
     (confidence result = medium \/ confidence result = high)
     /\ confidence result <> low
     /\ reason result
        = reason_kw_found ++ str_of_nat (phishing_score U full_email)
          ++ reason_kw_indicators)
  /\ (is_phishing result = false ->
        (confidence result = low \/ confidence result = medium)
        /\ confidence result <> high
        /\ reason result = reason_kw_none)
  /\ (confidence result = high -> is_phishing result = true)
  /\ (confidence result = low -> is_phishing result = false).
Proof.
  assert (Hhm : high <> medium) by (apply str_neq; vm_compute; reflexivity).
  assert (Hhl : high <> low) by (apply str_neq; vm_compute; reflexivity).
  assert (Hml : medium <> low) by (apply str_neq; vm_compute; reflexivity).
  intros result. unfold result, keyword_analysis.
  cbn [is_phishing confidence reason].
  set (n := phishing_score U full_email).
  destruct (3 <=? n)%nat eqn:E3.
  - apply Nat.leb_le in E3.
    assert (E2 : (2 <=? n)%nat = true) by (apply Nat.leb_le; lia).
    rewrite E2. split; [|split; [|split]].
    + intros _. split; [now right|]. split; [exact Hhl | reflexivity].
    + discriminate.
    + reflexivity.
    + intros H. destruct (Hhl H).
  - apply Nat.leb_gt in E3. destruct (1 <=? n)%nat eqn:E1.
    + destruct (2 <=? n)%nat eqn:E2; (split; [|split; [|split]]).
      * intros _. split; [now left|]. split; [exact Hml | reflexivity].
      * discriminate.
      * intros H. symmetry in H. destruct (Hhm H).
      * intros H. destruct (Hml H).
      * discriminate.
      * intros _. split; [now right|]. split; [|reflexivity].
        intros H. symmetry in H. destruct (Hhm H).
      * intros H. symmetry in H. destruct (Hhm H).
      * reflexivity.
    + apply Nat.leb_gt in E1.
      assert (E2 : (2 <=? n)%nat = false) by (apply Nat.leb_gt; lia).
      rewrite E2. split; [|split; [|split]].
      * discriminate.
      * intros _. split; [now left|]. split; [|reflexivity].
        intros H. symmetry in H. destruct (Hhl H).
      * intros H. symmetry in H. destruct (Hhl H).
      * reflexivity.
Qed.

Lemma known_signs_split :
  known_signs
  = [sign_verify; sign_urgency; sign_click; sign_sensitive; sign_link;
     sign_account; sign_prize] ++ [no_clear_signs; simple_keyword_analysis].
Proof. reflexivity. Qed.

Lemma extract_warning_signs_known (U : UnicodeData) (full_email : str) :
  extract_warning_signs U full_email <> []
  /\ NoDup (extract_warning_signs U full_email)
  /\ Forall (fun sign => In sign known_signs)
       (extract_warning_signs U full_email).
Proof.
  rewrite extract_warning_signs_unfold.
  assert (Hnd : NoDup (matching_signs U full_email))
    by (apply filter_keeps_NoDup_map, warning_rules_NoDup).
  assert (Hk : Forall (fun sign => In sign known_signs)
                 (matching_signs U full_email)).
  { apply Forall_forall. intros sign Hin.
    apply matching_signs_In in Hin. destruct Hin as (rule & Hr & _).
    assert (Hs : In sign (map snd (warning_rules U)))
      by (apply in_map_iff; now exists (rule, sign)).
    rewrite warning_rules_signs in Hs. rewrite known_signs_split.
    apply in_or_app. now left. }
  destruct (matching_signs U full_email) as [|s l].
  - split; [discriminate|]. split.
    + constructor; [intros [] | constructor].
    + constructor; [|constructor]. rewrite known_signs_split.
      apply in_or_app. right. now left.
  - split; [discriminate|]. split; assumption.
Qed.

Lemma analyze_email_Ok_inv (U : UnicodeData) (format_percent : float -> str)
      (model : option Model) (data : option dict) (result : AnalysisResult) :
  analyze_email U format_percent model data = Ok result ->
  (exists m, model = Some m
             /\ ml_analysis U format_percent m (full_email_of data)
                  (preprocess_text U (full_email_of data)) = Ret result)
  \/ result = keyword_analysis U (full_email_of data).
Proof.
  intros H.
  destruct (field data "subject") as [|c s] eqn:Es;
    destruct (field data "body") as [|c' b] eqn:Eb.
  1: { destruct (analyze_email_empty U format_percent model data Es Eb)
         as [E|E]; rewrite E in H; discriminate. }
  all: rewrite analyze_email_nonempty in H
      by (rewrite ?Es, ?Eb; first [left; discriminate | right; discriminate]).
  all: destruct model as [m|]; [|right; now injection H].
  all: match type of H with
       | context [ml_analysis ?a ?b ?c ?d ?e] =>
         destruct (ml_analysis a b c d e) as [r|e'] eqn:Em
       end;
       [left; exists m; split; [reflexivity | now injection H as <-]
       | right; now injection H].
Qed.

(** X7. Every analysis answer is well formed: its warning signs are a
    non-empty list of known messages without repetition; its confidence
    is one of the four labels; and it either names the model and carries
    [ml_confidence], or names the keyword fallback, carries none and is
    never of very high confidence. *)
Theorem analysis_result_well_formed (U : UnicodeData)
        (format_percent : float -> str) (model : option Model)
        (data : option dict) (result : AnalysisResult) :
  analyze_email U format_percent model data = Ok result ->
  warning_signs result <> []
  /\ NoDup (warning_signs result)
  /\ Forall (fun sign => In sign known_signs) (warning_signs result)
  /\ In (confidence result) [very_high; high; medium; low]
  /\ ((model_used result = ml_model_name
       /\ exists shown, ml_confidence result = Some shown)
      \/ (model_used result = keyword_fallback_name
          /\ ml_confidence result = None
          /\ confidence result <> very_high)).
Proof.
  intros H. apply analyze_email_Ok_inv in H.
  destruct H as [(m & _ & Hml) | ->].
  - unfold ml_analysis in Hml.
    destruct (predict m [preprocess_text U (full_email_of data)])
      as [[|p ps]|e]; try discriminate.
    cbn [bind index0] in Hml.
    destruct (predict_proba m [preprocess_text U (full_email_of data)])
      as [[|q qs]|e]; try discriminate.
    cbn [bind index0] in Hml.
    destruct (py_max q) as [score|e]; try discriminate.
    cbn [bind] in Hml. injection Hml as <-.
    cbn [warning_signs confidence model_used ml_confidence].
    destruct (extract_warning_signs_known U (full_email_of data))
      as (Hne & Hnd & Hk).
    repeat (split; [assumption|]). split.
    + unfold confidence_of_score.
      destruct (0.9 <=? score)%float; [now left|].
      destruct (0.75 <=? score)%float; [right; now left|].
      destruct (0.6 <=? score)%float;
        [right; right; now left | right; right; right; now left].
    + left. split; [reflexivity | eexists; reflexivity].
  - assert (Hhv : high <> very_high) by (apply str_neq; vm_compute; reflexivity).
    assert (Hmv : medium <> very_high) by (apply str_neq; vm_compute; reflexivity).
    assert (Hlv : low <> very_high) by (apply str_neq; vm_compute; reflexivity).
    unfold keyword_analysis.
    cbn [warning_signs confidence model_used ml_confidence].
    split; [discriminate|]. split; [constructor; [intros []|constructor]|].
    split.
    { constructor; [|constructor]. rewrite known_signs_split.
      apply in_or_app. right. right. now left. }
    split.
    + destruct (3 <=? phishing_score U (full_email_of data))%nat;
        [right; now left|].
      destruct (1 <=? phishing_score U (full_email_of data))%nat;
        [right; right; now left | right; right; right; now left].
    + right. split; [reflexivity|]. split; [reflexivity|].
      destruct (3 <=? phishing_score U (full_email_of data))%nat;
        [exact Hhv|].
      destruct (1 <=? phishing_score U (full_email_of data))%nat;
        assumption.
Qed.

Lemma analysis_result_well_formed_witness :
  exists result,
    analyze_email ascii_only percent_stub
      (Some (constant_model 0 [0.7; 0.3]%float))
      (request "Hello" "see you at http://a.b, bring the prize") = Ok result
    /\ warning_signs result <> []
    /\ NoDup (warning_signs result)
    /\ Forall (fun sign => In sign known_signs) (warning_signs result)
    /\ In (confidence result) [very_high; high; medium; low]
    /\ ((model_used result = ml_model_name
         /\ exists shown, ml_confidence result = Some shown)
        \/ (model_used result = keyword_fallback_name
            /\ ml_confidence result = None
            /\ confidence result <> very_high)).
Proof.
  eexists. split; [vm_compute; reflexivity|].
  apply (analysis_result_well_formed ascii_only percent_stub
           (Some (constant_model 0 [0.7; 0.3]%float))
           (request "Hello" "see you at http://a.b, bring the prize")).
  vm_compute. reflexivity.
Defined.

(* ================================================================= *)
(** ** Further properties: start-up and health *)

(** X8. The service starts whatever loading the model came to.  When
    loading failed in either way, [health_check] reports
    [model_loaded = false], and then every request with a non-empty
    subject or body is answered by the keyword heuristic; when it
    succeeded, [health_check] reports [true]. *)
Theorem load_failure_means_fallback (U : UnicodeData)
        (format_percent : float -> str) (outcome : load_outcome) :
  (model_loaded (health_check (load_model outcome)) = false
   <-> outcome = FileNotFound \/ exists e, outcome = LoadFailed e)
  /\ (model_loaded (health_check (load_model outcome)) = false ->
      forall data,
        field data "subject" <> [] \/ field data "body" <> [] ->
        analyze_email U format_percent (load_model outcome) data
        = Ok (keyword_analysis U (full_email_of data))).
Proof.
  split.
  - destruct outcome as [|e|m]; cbn; split; intros H; eauto;
      try discriminate.
    destruct H as [H | [e H]]; discriminate.
  - intros H data Hne. rewrite analyze_email_nonempty by assumption.
    destruct outcome as [|e|m]; cbn in H |- *; try reflexivity.
    discriminate.
Qed.

(* ================================================================= *)
(** ** Further properties: the text normaliser *)

Lemma join_first (ws : list str) (c : char) (rest : str) :
  Forall word ws -> join [32] ws = c :: rest -> is_ascii_lower c = true.
Proof.
  intros Hws E. destruct ws as [|w ws]; [discriminate|].
  inversion Hws as [|? ? [Hne Hw] Hws']; subst.
  destruct w as [|x w']; [now destruct Hne|].
  assert (Hx : x = c)
    by (destruct ws; cbn [join app] in E; now injection E).
  subst x. now inversion Hw.
Qed.

Lemma join_last (ws : list str) :
  Forall word ws -> ws <> [] ->
  exists pre c, join [32] ws = pre ++ [c] /\ is_ascii_lower c = true.
Proof.
  induction 1 as [|w ws [Hne Hw] Hws IH]; intros Hn; [now destruct Hn|].
  destruct ws as [|w' ws'].
  - cbn [join]. exists (removelast w), (last w 0). split.
    + now apply app_removelast_last.
    + rewrite Forall_forall in Hw. apply Hw.
      destruct w as [|x w]; [now destruct Hne|].
      rewrite (app_removelast_last 0 (l := x :: w)) at 2 by discriminate.
      apply in_or_app. right. now left.
  - destruct IH as (pre & c & E & Hc); [discriminate|].
    exists (w ++ 32 :: pre), c. split; [|exact Hc].
    change (join [32] (w :: w' :: ws'))
      with (w ++ 32 :: join [32] (w' :: ws')).
    rewrite E, <- app_assoc. reflexivity.
Qed.

(** X9. What the normaliser returns: lower-case ASCII letters and single
    spaces only, made of non-empty words joined by one space each, so
    that it neither begins nor ends with a space and splitting and
    re-joining it changes nothing (given that lower-casing yields no
    ASCII capital from a non-ASCII character). *)
Theorem preprocess_text_shape (U : UnicodeData) (s : str) :
  lower_yields_no_ascii_capital U ->
  normalized (preprocess_text U s)
  /\ Forall (fun c => is_ascii_lower c = true \/ c = 32) (preprocess_text U s)
  /\ (forall c rest, preprocess_text U s = c :: rest -> is_ascii_lower c = true)
  /\ (forall pre c, preprocess_text U s = pre ++ [c] -> is_ascii_lower c = true)
  /\ join (utf8 " ") (split (preprocess_text U s)) = preprocess_text U s.
Proof.
  intros HU. pose proof (preprocess_text_normalized U s HU) as Hn.
  split; [exact Hn|]. destruct Hn as (ws & Hws & E).
  rewrite E, utf8_space. split; [now apply join_chars|]. split; [|split].
  - intros c rest. now apply join_first.
  - intros pre c Ht. destruct ws as [|w ws'].
    + destruct pre; discriminate.
    + destruct (join_last (w :: ws') Hws) as (pre' & c' & E' & Hc');
        [discriminate|].
      rewrite E' in Ht. apply app_inj_tail in Ht. destruct Ht as [_ ->].
      exact Hc'.
  - now rewrite split_join.
Qed.

Lemma preprocess_text_shape_witness :
  normalized (preprocess_text ascii_only (utf8 "  Hello,   WORLD 42! "))
  /\ Forall (fun c => is_ascii_lower c = true \/ c = 32)
       (preprocess_text ascii_only (utf8 "  Hello,   WORLD 42! "))
  /\ (forall c rest,
        preprocess_text ascii_only (utf8 "  Hello,   WORLD 42! ") = c :: rest ->
        is_ascii_lower c = true)
  /\ (forall pre c,
        preprocess_text ascii_only (utf8 "  Hello,   WORLD 42! ") = pre ++ [c] ->
        is_ascii_lower c = true)
  /\ join (utf8 " ")
       (split (preprocess_text ascii_only (utf8 "  Hello,   WORLD 42! ")))
     = preprocess_text ascii_only (utf8 "  Hello,   WORLD 42! ").
Proof.
  apply (preprocess_text_shape ascii_only (utf8 "  Hello,   WORLD 42! ")).
  intros c Hc. constructor; [|constructor].
  unfold is_ascii_upper. apply andb_false_iff. right.
  apply N.leb_gt. lia.
Defined.

Lemma split_from_all_space (s : str) :
  Forall (fun c => is_space c = true) s -> split_from [] s = [].
Proof.
  induction 1 as [|c s Hc Hs IH]; [reflexivity|].
  cbn [split_from]. now rewrite Hc.
Qed.

(** X10. A text whose lower-cased form has no ASCII letter (digits,
    punctuation, white space, Arabic script) is normalised to the empty
    string; in particular the empty text is. *)
Theorem preprocess_text_without_letters (U : UnicodeData) (s : str) :
  Forall (fun c => is_ascii_letter c = false) (lower U s) ->
  preprocess_text U s = [].
Proof.
  intros H. unfold preprocess_text. cbv zeta.
  set (u := re_sub_empty re_tag
              (re_sub_empty re_email (re_sub_empty re_url (lower U s)))).
  assert (Hu : Forall (fun c => is_ascii_letter c = false) u)
    by (unfold u, re_sub_empty; do 3 apply sub_from_Forall; exact H).
  unfold re_non_letter. rewrite re_sub_empty_class.
  unfold split. rewrite split_from_all_space; [reflexivity|].
  apply Forall_forall. intros c Hc. apply filter_In in Hc.
  destruct Hc as [Hin Hc]. rewrite Forall_forall in Hu.
  specialize (Hu c Hin). unfold not_letter_or_space in Hc.
  unfold is_ascii_letter in Hu.
  rewrite negb_involutive, Hu in Hc. exact Hc.
Qed.

Lemma preprocess_text_without_letters_witness :
  preprocess_text ascii_only (utf8 "عاجل: 100% !!") = [].
Proof.
  apply (preprocess_text_without_letters ascii_only (utf8 "عاجل: 100% !!")).
  apply Forall_forall. intros c Hc.
  apply (proj1 (forallb_forall
           (fun c => negb (is_ascii_letter c))
           (lower ascii_only (utf8 "عاجل: 100% !!")))
           ltac:(vm_compute; reflexivity)) in Hc.
  now apply negb_true_iff in Hc.
Defined.

(** On ASCII text [str.lower] maps the capitals, one by one. *)
Lemma do_lower_ascii (U : UnicodeData) (s before : str) :
  Forall (fun c => c < 128) s -> do_lower U before s = map ascii_lower s.
Proof.
  intros H. revert before. induction H as [|c s Hc Hs IH]; intros before;
    [reflexivity|].
  cbn [do_lower map]. rewrite IH. unfold lower_ucs4, lower_char.
  assert (E : (c =? capital_sigma) = false)
    by (apply N.eqb_neq; unfold capital_sigma; lia).
  apply N.ltb_lt in Hc. now rewrite E, Hc.
Qed.

(** X11. ASCII case is ignored: two ASCII texts that differ only in the
    case of their letters have the same normalised text and the same
    keyword-heuristic answer. *)
Theorem ascii_case_is_ignored (U : UnicodeData) (s1 s2 : str) :
  Forall (fun c => c < 128) s1 -> Forall (fun c => c < 128) s2 ->
  map ascii_lower s1 = map ascii_lower s2 ->
  preprocess_text U s1 = preprocess_text U s2
  /\ keyword_analysis U s1 = keyword_analysis U s2.
Proof.
  intros H1 H2 E.
  assert (El : lower U s1 = lower U s2)
    by (unfold lower; now rewrite !do_lower_ascii, E).
  split.
  - unfold preprocess_text. now rewrite El.
  - unfold keyword_analysis, phishing_score. now rewrite El.
Qed.

Lemma ascii_case_is_ignored_witness :
  preprocess_text ascii_only (utf8 "URGENT Action: Verify Account")
  = preprocess_text ascii_only (utf8 "urgent action: verify account")
  /\ keyword_analysis ascii_only (utf8 "URGENT Action: Verify Account")
     = keyword_analysis ascii_only (utf8 "urgent action: verify account").
Proof.
  apply (ascii_case_is_ignored ascii_only
           (utf8 "URGENT Action: Verify Account")
           (utf8 "urgent action: verify account")).
  - apply Forall_forall. intros c Hc. apply N.ltb_lt.
    exact (proj1 (forallb_forall (fun c => c <? 128)
                    (utf8 "URGENT Action: Verify Account"))
             ltac:(vm_compute; reflexivity) c Hc).
  - apply Forall_forall. intros c Hc. apply N.ltb_lt.
    exact (proj1 (forallb_forall (fun c => c <? 128)
                    (utf8 "urgent action: verify account"))
             ltac:(vm_compute; reflexivity) c Hc).
  - vm_compute. reflexivity.
Defined.

(* ================================================================= *)
(** ** Further properties: warning signs and longer texts *)

Lemma re_search_app (r : regex) (t s : str) :
  re_search r t = true -> re_search r (t ++ s) = true.
Proof.
  rewrite !re_search_spec. intros (pre & w & post & -> & Hm).
  exists pre, w, (post ++ s). split; [|exact Hm].
  now rewrite <- !app_assoc.
Qed.

(** A pattern whose words contain no sigma keeps its match in the
    lower-cased text when the text is extended. *)
Lemma re_search_lower_app (U : UnicodeData) (r : regex) (t s : str) :
  (forall w, matches r w -> no_sigma w = true) ->
  re_search r (lower U t) = true -> re_search r (lower U (t ++ s)) = true.
Proof.
  intros Hr H. apply re_search_spec in H.
  destruct H as (pre & w & post & E & Hm).
  assert (Hin : str_in w (lower U t) = true)
    by (apply str_in_spec; exists pre, post; exact E).
  apply (str_in_lower_app U w t s (Hr w Hm)) in Hin.
  apply str_in_spec in Hin. destruct Hin as (pre' & post' & E').
  apply re_search_spec. now exists pre', w, post'.
Qed.

Lemma no_sigma_app (a b : str) :
  no_sigma (a ++ b) = no_sigma a && no_sigma b.
Proof. unfold no_sigma. apply forallb_app. Qed.

Lemma is_space_no_sigma (w : str) :
  Forall (fun c => is_space c = true) w -> no_sigma w = true.
Proof.
  induction 1 as [|c w Hc Hw IH]; [reflexivity|].
  unfold no_sigma in *. cbn [forallb]. rewrite IH, andb_true_r.
  apply negb_true_iff, orb_false_iff. split; apply N.eqb_neq; intros ->;
    vm_compute in Hc; discriminate.
Qed.

Lemma matches_re_click_no_sigma (w : str) :
  matches re_click w -> no_sigma w = true.
Proof.
  unfold re_click. intros H.
  inversion H as [| | |r1 r2 w1 w23 H1 H23| | | | | |]; subst.
  inversion H23 as [| | |r1 r2 w2 w3 H2 H3| | | | | |]; subst.
  apply (proj1 (matches_lit (utf8 "click") _)) in H1. subst.
  inversion H2 as [| | | | | | | |p c u Hc Hu|]; subst.
  rewrite !no_sigma_app.
  rewrite (is_space_no_sigma (c :: u)) by now constructor.
  inversion H3 as [| | | |r1 r2 u0 Hu0|r1 r2 u0 Hu0| | | |]; subst.
  - apply (proj1 (matches_lit (utf8 "here") _)) in Hu0. subst. reflexivity.
  - apply (proj1 (matches_lit (utf8 "link") _)) in Hu0. subst. reflexivity.
Qed.

(** Each of the seven conditions, once true, stays true when the text is
    extended. *)
Lemma warning_rule_app (U : UnicodeData) (t s : str)
      (rule : str -> bool) (sign : str) :
  In (rule, sign) (warning_rules U) ->
  rule t = true -> rule (t ++ s) = true.
Proof.
  assert (Hlatin : forall k, no_sigma k = true ->
            str_in k (lower U t) = true ->
            str_in k (lower U (t ++ s)) = true)
    by (intros k Hk; now apply str_in_lower_app).
  assert (Hraw : forall k, str_in k t = true -> str_in k (t ++ s) = true)
    by (intros k; apply str_in_app).
  unfold warning_rules. intros Hin.
  repeat (destruct Hin as [E|Hin]; [injection E as <- _|]);
    try contradiction;
    unfold rule_verify, rule_urgency, rule_click, rule_sensitive, rule_link,
      rule_account, rule_prize; cbv zeta;
    intros H; rewrite ?orb_true_iff in H;
    repeat match type of H with
           | _ \/ _ => destruct H as [H|H]
           end;
    first
      [ apply Hlatin in H;
        [rewrite H, ?orb_true_r; reflexivity | vm_compute; reflexivity]
      | apply Hraw in H; rewrite H, ?orb_true_r; reflexivity
      | apply (re_search_lower_app U re_click t s matches_re_click_no_sigma)
          in H; rewrite H; reflexivity
      | now apply re_search_app ].
Qed.

Lemma placeholder_means_no_match (U : UnicodeData) (x : str) :
  In no_clear_signs (extract_warning_signs U x) ->
  forall rule sign, In (rule, sign) (warning_rules U) -> rule x = false.
Proof.
  intros Hin rule sign Hr. destruct (rule x) eqn:Hm; [|reflexivity].
  exfalso. rewrite extract_warning_signs_unfold in Hin.
  assert (Hs : In sign (matching_signs U x))
    by (apply matching_signs_In; now exists rule).
  destruct (matching_signs U x) as [|s0 l] eqn:E; [contradiction|].
  rewrite <- E in Hin. apply matching_signs_In in Hin.
  destruct Hin as (rule' & Hr' & _).
  exact (no_clear_signs_not_a_rule_sign U rule' Hr').
Qed.

(** X12. Extending the text never removes a warning sign: the message
    of a rule that is among the warning signs of a text is among those of
    every extension of it; and if an extension gets the "no clear signs"
    placeholder, so did the text. *)
Theorem warning_signs_grow_with_text (U : UnicodeData) (t s : str) :
  (forall rule sign,
      In (rule, sign) (warning_rules U) ->
      In sign (extract_warning_signs U t) ->
      In sign (extract_warning_signs U (t ++ s)))
  /\ (In no_clear_signs (extract_warning_signs U (t ++ s)) ->
      extract_warning_signs U t = [no_clear_signs]).
Proof.
  split.
  - intros rule sign Hr Hin.
    apply (extract_warning_signs_In U (t ++ s) rule sign Hr).
    apply (extract_warning_signs_In U t rule sign Hr) in Hin.
    now apply (warning_rule_app U t s rule sign Hr).
  - intros Hin.
    pose proof (placeholder_means_no_match U (t ++ s) Hin) as Hnone.
    rewrite extract_warning_signs_unfold.
    destruct (matching_signs U t) as [|s0 l] eqn:E; [reflexivity|].
    exfalso.
    assert (Hs : In s0 (matching_signs U t)) by (rewrite E; now left).
    apply matching_signs_In in Hs. destruct Hs as (rule & Hr & Hm).
    apply (warning_rule_app U t s rule s0 Hr) in Hm.
    rewrite (Hnone rule s0 Hr) in Hm. discriminate.
Qed.

(* ================================================================= *)
(** ** Case folding *)

Lemma ascii_lower_below (c : char) : c < 128 -> ascii_lower c < 128.
Proof.
  unfold ascii_lower, is_ascii_upper. intros H.
  destruct ((65 <=? c) && (c <=? 90)) eqn:E; [|exact H].
  apply andb_true_iff in E. destruct E as [_ E]. apply N.leb_le in E. lia.
Qed.

Lemma ascii_lower_below_inv (c : char) : ascii_lower c < 128 -> c < 128.
Proof.
  unfold ascii_lower, is_ascii_upper.
  destruct ((65 <=? c) && (c <=? 90)) eqn:E; [|trivial].
  apply andb_true_iff in E. destruct E as [_ E]. apply N.leb_le in E. lia.
Qed.

Lemma lower_ascii_spec (k : str) :
  lower_ascii k = true ->
  Forall (fun c => c < 128) k /\ map ascii_lower k = k.
Proof.
  unfold lower_ascii. induction k as [|c k IH]; cbn [forallb map];
    intros H; [split; [constructor | reflexivity]|].
  apply andb_true_iff in H. destruct H as [Hc Hk].
  apply andb_true_iff in Hc. destruct Hc as [Hc Hu].
  apply N.ltb_lt in Hc. apply negb_true_iff in Hu.
  destruct (IH Hk) as [Hall Hmap]. split; [now constructor|].
  rewrite Hmap. unfold ascii_lower. now rewrite Hu.
Qed.

(** A text with the letters of an ASCII text is ASCII. *)
Lemma same_letters_ascii (k w : str) :
  Forall (fun c => c < 128) k ->
  map ascii_lower w = map ascii_lower k ->
  Forall (fun c => c < 128) w.
Proof.
  intros Hk. revert w. induction Hk as [|c k Hc Hk IH]; intros w E;
    destruct w as [|x w]; try discriminate; [constructor|].
  cbn [map] in E. injection E as Ex Ew. constructor; [|now apply IH].
  apply ascii_lower_below_inv. rewrite Ex. now apply ascii_lower_below.
Qed.

Lemma ascii_no_sigma (w : str) :
  Forall (fun c => c < 128) w -> no_sigma w = true.
Proof.
  unfold no_sigma. induction 1 as [|c w Hc Hw IH]; [reflexivity|].
  cbn [forallb]. rewrite IH, andb_true_r.
  apply negb_true_iff, orb_false_iff.
  unfold small_final_sigma, small_sigma. split; apply N.eqb_neq; lia.
Qed.

Lemma flat_map_lower_blind_ascii (U : UnicodeData) (w : str) :
  Forall (fun c => c < 128) w ->
  flat_map (lower_blind U) w = map ascii_lower w.
Proof.
  induction 1 as [|c w Hc Hw IH]; [reflexivity|].
  cbn [flat_map map]. rewrite IH.
  pose proof (ascii_lower_below c Hc) as Hl.
  unfold lower_blind, lower_char, sigma_blind.
  assert (E1 : (c =? capital_sigma) = false)
    by (apply N.eqb_neq; unfold capital_sigma; lia).
  assert (E2 : (ascii_lower c =? small_final_sigma) = false)
    by (apply N.eqb_neq; unfold small_final_sigma; lia).
  apply N.ltb_lt in Hc. rewrite E1, Hc. cbn [map]. now rewrite E2.
Qed.

(** Where an ASCII text occurs, its lower-case form occurs in the
    lower-cased text, whatever surrounds it. *)
Lemma str_in_lower_of_occurrence (U : UnicodeData) (w s : str) :
  Forall (fun c => c < 128) w -> substring w s ->
  str_in (map ascii_lower w) (lower U s) = true.
Proof.
  intros Hw (pre & post & ->).
  assert (Hk : no_sigma (map ascii_lower w) = true).
  { apply ascii_no_sigma. apply Forall_forall. intros c Hc.
    apply in_map_iff in Hc. destruct Hc as (x & <- & Hx).
    apply ascii_lower_below. rewrite Forall_forall in Hw. now apply Hw. }
  unfold lower.
  rewrite <- (str_in_sigma_blind _ (do_lower U [] (pre ++ w ++ post)) Hk).
  rewrite do_lower_blind, !flat_map_app.
  rewrite (flat_map_lower_blind_ascii U w Hw).
  apply str_in_spec. now exists (flat_map (lower_blind U) pre),
                       (flat_map (lower_blind U) post).
Qed.

(** A lower-case ASCII phrase that occurs in the text in any case is
    found in the lower-cased text. *)
Lemma str_in_lower_ignoring_case (U : UnicodeData) (k s : str) :
  lower_ascii k = true -> occurs_ignoring_case k s ->
  str_in k (lower U s) = true.
Proof.
  intros Hk (pre & w & post & -> & E).
  destruct (lower_ascii_spec k Hk) as [Hascii Hfix].
  rewrite Hfix in E. rewrite <- E.
  apply str_in_lower_of_occurrence.
  - apply (same_letters_ascii k); [exact Hascii | now rewrite Hfix].
  - now exists pre, post.
Qed.

(** In an ASCII text nothing else is found. *)
Lemma str_in_lower_ascii_text (U : UnicodeData) (k s : str) :
  Forall (fun c => c < 128) s -> lower_ascii k = true ->
  str_in k (lower U s) = true -> occurs_ignoring_case k s.
Proof.
  intros Hs Hk H. destruct (lower_ascii_spec k Hk) as [_ Hfix].
  unfold lower in H. rewrite (do_lower_ascii U s [] Hs) in H.
  apply str_in_spec in H. destruct H as (pre' & post' & E).
  apply map_eq_app in E. destruct E as (pre & rest & -> & Hpre & E).
  apply map_eq_app in E. destruct E as (w & post & -> & Hw & Hpost).
  exists pre, w, post. split; [reflexivity|]. now rewrite Hfix.
Qed.

Lemma phishing_keywords_lower_ascii (k : str) :
  In k phishing_keywords -> lower_ascii k = true.
Proof.
  assert (H : forallb lower_ascii phishing_keywords = true)
    by (vm_compute; reflexivity).
  rewrite forallb_forall in H. apply H.
Qed.

Lemma latin_keywords_lower_ascii (k sign : str) :
  In (k, sign) latin_keywords -> lower_ascii k = true.
Proof.
  assert (H : forallb (fun p => lower_ascii (fst p)) latin_keywords = true)
    by (vm_compute; reflexivity).
  rewrite forallb_forall in H. intros Hin. exact (H (k, sign) Hin).
Qed.

(* ================================================================= *)
(** ** The keyword heuristic and the link rule, with case *)

(** C3. The count of the keyword heuristic is the number of the nine
    (pairwise different) phrases that occur as substrings of the
    lower-cased text, each counted once.  The case of the text does not
    matter: a phrase that occurs in the text in any mix of capitals and
    small letters is found, and in an ASCII text nothing else is.  The
    verdict is phishing exactly from two phrases on; the confidence is
    high from three on, medium for one or two, low for none, and never
    very high. *)
Theorem keyword_heuristic_contract (U : UnicodeData) (full_email : str) :
  let count := phishing_score U full_email in
  let result := keyword_analysis U full_email in
  count = length (filter (fun keyword => str_in keyword (lower U full_email))
                    phishing_keywords)
  /\ (forall keyword, str_in keyword (lower U full_email) = true
                      <-> substring keyword (lower U full_email))
  /\ (forall keyword,
        In keyword phishing_keywords ->
        occurs_ignoring_case keyword full_email ->
        str_in keyword (lower U full_email) = true)
  /\ (Forall (fun c => c < 128) full_email ->
      forall keyword,
        In keyword phishing_keywords ->
        (str_in keyword (lower U full_email) = true
         <-> occurs_ignoring_case keyword full_email))
  /\ length phishing_keywords = 9%nat
  /\ NoDup phishing_keywords
  /\ (count <= 9)%nat
  /\ (is_phishing result = true <-> (2 <= count)%nat)
  /\ (confidence result = high <-> (3 <= count)%nat)
  /\ (confidence result = medium <-> (1 <= count <= 2)%nat)
  /\ (confidence result = low <-> count = 0%nat)
  /\ confidence result <> very_high.
Proof.
  intros count result.
  assert (Hcount : count = length (filter
            (fun keyword => str_in keyword (lower U full_email))
            phishing_keywords)) by apply count_in_filter.
  assert (Hhm : high <> medium) by (apply str_neq; vm_compute; reflexivity).
  assert (Hhl : high <> low) by (apply str_neq; vm_compute; reflexivity).
  assert (Hml : medium <> low) by (apply str_neq; vm_compute; reflexivity).
  assert (Hhv : high <> very_high) by (apply str_neq; vm_compute; reflexivity).
  assert (Hmv : medium <> very_high) by (apply str_neq; vm_compute; reflexivity).
  assert (Hlv : low <> very_high) by (apply str_neq; vm_compute; reflexivity).
  split; [exact Hcount|].
  split; [intros keyword; apply str_in_spec|].
  split.
  { intros keyword Hin. apply str_in_lower_ignoring_case.
    now apply phishing_keywords_lower_ascii. }
  split.
  { intros Hascii keyword Hin.
    pose proof (phishing_keywords_lower_ascii keyword Hin) as Hk. split.
    - now apply str_in_lower_ascii_text.
    - now apply str_in_lower_ignoring_case. }
  split; [reflexivity|].
  split; [apply nodupb_NoDup; vm_compute; reflexivity|].
  split.
  { rewrite Hcount.
    apply (filter_length_le _ phishing_keywords). }
  unfold result, keyword_analysis. cbn [is_phishing confidence].
  fold count.
  split; [apply Nat.leb_le|].
  destruct (3 <=? count)%nat eqn:E3; [apply Nat.leb_le in E3 | apply Nat.leb_gt in E3];
    [|destruct (1 <=? count)%nat eqn:E1;
      [apply Nat.leb_le in E1 | apply Nat.leb_gt in E1]].
  - repeat split; intros; try lia; try congruence.
  - repeat split; intros; try lia; try congruence.
  - repeat split; intros; try lia; try congruence.
Qed.

(** C10. The link rule reads the text as given: a text in which neither
    [http://] nor [https://] occurs in exactly that (lower-case) spelling
    does not get the external-link sign, whatever its lower-cased form
    contains.  The Latin keywords of the other rules are looked up in the
    lower-cased text and still produce their signs: a keyword that occurs
    in the text in any mix of capitals and small letters does, and so
    does an ASCII match of the click pattern in any case. *)
Theorem link_rule_is_case_sensitive (U : UnicodeData) (full_email : str) :
  str_in (utf8 "http://") full_email = false ->
  str_in (utf8 "https://") full_email = false ->
  rule_link full_email = false
  /\ ~ In sign_link (extract_warning_signs U full_email)
  /\ (forall keyword sign,
        In (keyword, sign) latin_keywords ->
        str_in keyword (lower U full_email) = true ->
        In sign (extract_warning_signs U full_email))
  /\ (re_search re_click (lower U full_email) = true ->
      In sign_click (extract_warning_signs U full_email))
  /\ (forall keyword sign,
        In (keyword, sign) latin_keywords ->
        occurs_ignoring_case keyword full_email ->
        In sign (extract_warning_signs U full_email))
  /\ (forall w,
        Forall (fun c => c < 128) w ->
        matches re_click (map ascii_lower w) ->
        substring w full_email ->
        In sign_click (extract_warning_signs U full_email)).
Proof.
  intros H1 H2.
  assert (Hl : rule_link full_email = false).
  { destruct (rule_link full_email) eqn:E; [|reflexivity].
    apply rule_link_spec in E. rewrite <- !str_in_spec in E.
    destruct E as [E|E]; congruence. }
  assert (Hclick : re_search re_click (lower U full_email) = true ->
                   In sign_click (extract_warning_signs U full_email)).
  { intros Hc.
    apply (extract_warning_signs_In U full_email (rule_click U) sign_click).
    - unfold warning_rules. do 2 right. now left.
    - unfold rule_click. cbv zeta. rewrite Hc. reflexivity. }
  assert (Hlatin : forall keyword sign,
             In (keyword, sign) latin_keywords ->
             str_in keyword (lower U full_email) = true ->
             In sign (extract_warning_signs U full_email)).
  { intros keyword sign Hin Hk.
    destruct (latin_keyword_rule U full_email keyword sign Hin Hk)
      as (rule & Hr & Hm).
    now apply (extract_warning_signs_In U full_email rule sign Hr). }
  split; [exact Hl|]. split; [|split; [|split; [|split]]].
  - intros Hin.
    apply (extract_warning_signs_In U full_email rule_link sign_link) in Hin.
    + congruence.
    + unfold warning_rules. do 4 right. now left.
  - exact Hlatin.
  - exact Hclick.
  - intros keyword sign Hin Hocc. apply (Hlatin keyword sign Hin).
    apply str_in_lower_ignoring_case; [|exact Hocc].
    now apply (latin_keywords_lower_ascii keyword sign).
  - intros w Hw Hm Hsub. apply Hclick.
    pose proof (str_in_lower_of_occurrence U w full_email Hw Hsub) as Hin.
    apply str_in_spec in Hin. destruct Hin as (pre & post & E).
    apply re_search_spec. now exists pre, (map ascii_lower w), post.
Qed.

Lemma link_rule_is_case_sensitive_witness :
  occurs_ignoring_case (utf8 "http://")
    (utf8 "VERIFY your Account, Click  HERE: HTTP://EXAMPLE.COM")
  /\ rule_link (utf8 "VERIFY your Account, Click  HERE: HTTP://EXAMPLE.COM")
     = false
  /\ ~ In sign_link
         (extract_warning_signs ascii_only
            (utf8 "VERIFY your Account, Click  HERE: HTTP://EXAMPLE.COM"))
  /\ In sign_verify
        (extract_warning_signs ascii_only
           (utf8 "VERIFY your Account, Click  HERE: HTTP://EXAMPLE.COM"))
  /\ In sign_account
        (extract_warning_signs ascii_only
           (utf8 "VERIFY your Account, Click  HERE: HTTP://EXAMPLE.COM"))
  /\ In sign_click
        (extract_warning_signs ascii_only
           (utf8 "VERIFY your Account, Click  HERE: HTTP://EXAMPLE.COM")).
Proof.
  destruct (link_rule_is_case_sensitive ascii_only
              (utf8 "VERIFY your Account, Click  HERE: HTTP://EXAMPLE.COM")
              ltac:(vm_compute; reflexivity) ltac:(vm_compute; reflexivity))
    as (Hrule & Hlink & _ & _ & Hlatin & Hclick).
  split.
  { exists (utf8 "VERIFY your Account, Click  HERE: "), (utf8 "HTTP://"),
      (utf8 "EXAMPLE.COM"). split; vm_compute; reflexivity. }
  split; [exact Hrule|]. split; [exact Hlink|]. split; [|split].
  - apply (Hlatin (utf8 "verify") sign_verify); [now left|].
    exists [], (utf8 "VERIFY"),
      (utf8 " your Account, Click  HERE: HTTP://EXAMPLE.COM").
    split; vm_compute; reflexivity.
  - apply (Hlatin (utf8 "account") sign_account); [do 5 right; now left|].
    exists (utf8 "VERIFY your "), (utf8 "Account"),
      (utf8 ", Click  HERE: HTTP://EXAMPLE.COM").
    split; vm_compute; reflexivity.
  - apply (Hclick (utf8 "Click  HERE")).
    + apply Forall_forall. intros c Hc. apply N.ltb_lt.
      exact (proj1 (forallb_forall (fun c => c <? 128) (utf8 "Click  HERE"))
               ltac:(vm_compute; reflexivity) c Hc).
    + change (map ascii_lower (utf8 "Click  HERE"))
        with (utf8 "click" ++ [32; 32] ++ utf8 "here").
      unfold re_click. constructor; [now apply matches_lit|].
      constructor.
      * constructor; [reflexivity|]. constructor; [reflexivity | constructor].
      * apply M_Alt_l. now apply matches_lit.
    + exists (utf8 "VERIFY your Account, "), (utf8 ": HTTP://EXAMPLE.COM").
      vm_compute. reflexivity.
Defined.

(* ================================================================= *)
(** ** The route as a whole *)

Lemma analyze_request_object (U : UnicodeData) (format_percent : float -> str)
      (model : option Model) (d : dict) :
  d <> [] ->
  analyze_request U format_percent model (Ret (JObject d))
  = analyze_email U format_percent model (Some d).
Proof.
  intros Hd. destruct d as [|kv d]; [now destruct Hd|]. reflexivity.
Qed.

Lemma analyze_request_falsy (U : UnicodeData) (format_percent : float -> str)
      (model : option Model) (data : json) :
  json_truthy data = false ->
  analyze_request U format_percent model (Ret data) = BadRequest err_no_data.
Proof.
  intros H. unfold analyze_request, analyze_request_body. cbn [bind].
  now rewrite H.
Qed.

Lemma analyze_request_not_object (U : UnicodeData)
      (format_percent : float -> str) (model : option Model) (data : json) :
  json_truthy data = true -> (forall d, data <> JObject d) ->
  analyze_request U format_percent model (Ret data)
  = InternalError AttributeError.
Proof.
  intros H Hno. unfold analyze_request, analyze_request_body. cbn [bind].
  rewrite H. cbn [negb].
  destruct data as [|b|n|x|s0|items|d]; try reflexivity.
  now destruct (Hno d).
Qed.

Lemma json_object_or_not (data : json) :
  (exists d, data = JObject d) \/ (forall d, data <> JObject d).
Proof.
  destruct data as [|b|n|x|s0|items|d]; try (right; discriminate).
  left. now exists d.
Qed.


(** X3. The 500 answer is given exactly when [get_json()] raises (a
    request without a JSON body) or returns a true value that is not an
    object, on which [data.get] raises.  Nothing the classifier does
    leads to it. *)
Theorem internal_error_only_from_request_body (U : UnicodeData)
        (format_percent : float -> str) (model : option Model)
        (got : py json) (e : exn) :
  analyze_request U format_percent model got = InternalError e
  <-> got = Raise e
      \/ (e = AttributeError
          /\ exists data, got = Ret data /\ json_truthy data = true
                          /\ forall d, data <> JObject d).
Proof.
  destruct got as [data|e'].
  2: { split.
       - intros H. left. unfold analyze_request in H. cbn in H.
         now injection H as ->.
       - intros [H | (_ & data & H & _)]; [|discriminate].
         now injection H as ->. }
  destruct (json_truthy data) eqn:Ht.
  - destruct (json_object_or_not data) as [[d ->] | Hno].
    + assert (Hd : d <> []) by (intros ->; discriminate).
      rewrite (analyze_request_object U format_percent model d Hd). split.
      * intros H.
        now destruct (analyze_email_no_internal_error U format_percent
                        model (Some d) e).
      * intros [H | (_ & data & E & _ & Hno)]; [discriminate|].
        injection E as <-. now destruct (Hno d).
    + rewrite (analyze_request_not_object U format_percent model data Ht Hno).
      split.
      * intros H. injection H as <-. right. split; [reflexivity|].
        exists data. split; [reflexivity|]. split; [exact Ht | exact Hno].
      * intros [H | (-> & _)]; [discriminate | reflexivity].
  - rewrite (analyze_request_falsy U format_percent model data Ht). split.
    + discriminate.
    + intros [H | (_ & data' & E & Hf & _)]; [discriminate|].
      injection E as <-. congruence.
Qed.

(* ================================================================= *)
(** ** Runs of the route and of the heuristic on capitals *)

Example keyword_count_ignores_case (U : UnicodeData) :
  phishing_score U (utf8 "URGENT Action: Verify ACCOUNT") = 2%nat
  /\ is_phishing (keyword_analysis U (utf8 "URGENT Action: Verify ACCOUNT"))
     = true.
Proof. split; vm_compute; reflexivity. Qed.

Example request_without_json_body (U : UnicodeData) (e : exn) :
  analyze_request U percent_stub None (Raise e) = InternalError e.
Proof. reflexivity. Qed.

Example request_with_json_list (U : UnicodeData) :
  analyze_request U percent_stub None (Ret (JArray [JString (utf8 "hi")]))
  = InternalError AttributeError
  /\ analyze_request U percent_stub None (Ret (JArray []))
     = BadRequest err_no_data
  /\ analyze_request U percent_stub None (Ret (JInt 0))
     = BadRequest err_no_data.
Proof. repeat split. Qed.
